(** * The ClickHouseInstallation controller ([pkg/controllers/chi/chi.go])

    A shallow embedding of the controller's reconcile loop: the worker
    ([processNextWorkItem]), the reconcile engine ([syncItem]), the creation
    phase ([createControlledResources] and the three per-kind create helpers),
    the status updater ([updateChiStatus]) and the event router
    ([enqueueObject], [handleObject]).

    The controller is stateful Go code that talks to collaborators through
    interfaces (listers, typed clients, a rate-limited work queue, the metrics
    exporter).  Here the collaborators' state is one record, [World], the
    controller's methods are functions in a state monad over it, Go's
    [error] results are [option error] values, and every call that leaves the
    controller is appended to a trace. *)

From stdpp Require Import base gmap strings list fin_maps.

(** ** Errors *)

(** [apierrors] classifies an error by the reason of its API status; errors
    built by [fmt.Errorf] carry no status. *)
Inductive StatusReason :=
| StatusReasonNotFound
| StatusReasonAlreadyExists
| StatusReasonUnknown.

Record error := mkError { Reason : StatusReason; ErrorMessage : string }.

#[global] Instance StatusReason_eq_dec : EqDecision StatusReason.
Proof. solve_decision. Defined.

#[global] Instance error_eq_dec : EqDecision error.
Proof. solve_decision. Defined.

Definition IsNotFound (err : error) : bool :=
  match Reason err with StatusReasonNotFound => true | _ => false end.

Definition IsAlreadyExists (err : error) : bool :=
  match Reason err with StatusReasonAlreadyExists => true | _ => false end.

(** [fmt.Errorf] with the message already formatted. *)
Definition Errorf (msg : string) : error :=
  {| Reason := StatusReasonUnknown; ErrorMessage := msg |}.

Definition NewNotFound (name : string) : error :=
  {| Reason := StatusReasonNotFound; ErrorMessage := name +:+ " not found" |}.

Definition NewAlreadyExists (name : string) : error :=
  {| Reason := StatusReasonAlreadyExists; ErrorMessage := name +:+ " already exists" |}.

(** ** Objects *)

Record OwnerReference := mkOwnerReference {
  OwnerKind : string;
  OwnerName : string;
  Controller : option bool
}.

Record ObjectMeta := mkObjectMeta {
  Name : string;
  Namespace : string;
  ResourceVersion : string;
  SelfLink : string;
  OwnerReferences : list OwnerReference
}.

(** The three kinds of dependent objects the controller creates. *)
Inductive Kind := KConfigMap | KService | KStatefulSet.

#[global] Instance Kind_eq_dec : EqDecision Kind.
Proof. solve_decision. Defined.

#[global] Instance Kind_countable : Countable Kind.
Proof.
  refine (inj_countable'
            (λ k, match k with KConfigMap => 0 | KService => 1 | KStatefulSet => 2 end)
            (λ n, match n with 0 => KConfigMap | 1 => KService | _ => KStatefulSet end) _).
  by intros [].
Defined.

(** A dependent object ([core.ConfigMap], [core.Service], [apps.StatefulSet]):
    its metadata and an opaque body. *)
Record Object := mkObject { Meta : ObjectMeta; Body : string }.

Record ChiStatus := mkChiStatus { ObjectPrefixes : list string }.

Record ClickHouseInstallation := mkChi {
  ChiMeta : ObjectMeta;
  Spec : string;
  Status : ChiStatus
}.

(** The lists [chopparser.CreateObjects] returns, one case per branch of the
    type switch in [createControlledResources]. *)
Inductive ObjectList :=
| ConfigMapList (l : list Object)
| ServiceList (l : list Object)
| StatefulSetList (l : list Object).

(** What an event handler or the queue receives as [interface{}]. *)
Inductive Any :=
| AnyChi (chi : ClickHouseInstallation)
| AnyObject (k : Kind) (o : Object)
| AnyDeletedFinalStateUnknown (key : string) (obj : Any)
| AnyOther (tag : nat).

(** [obj.(meta.Object)]: custom resources and dependent objects carry
    metadata, tombstones and foreign values do not. *)
Definition asMetaObject (obj : Any) : option ObjectMeta :=
  match obj with
  | AnyChi chi => Some (ChiMeta chi)
  | AnyObject _ o => Some (Meta o)
  | AnyDeletedFinalStateUnknown _ _ => None
  | AnyOther _ => None
  end.

(** [meta.GetControllerOf]: the first owner reference whose controller flag is
    set and true. *)
Definition isController (ref : OwnerReference) : bool :=
  match Controller ref with Some true => true | _ => false end.

Definition GetControllerOf (object : ObjectMeta) : option OwnerReference :=
  find isController (OwnerReferences object).

(** ** Work items and keys *)

(** A queue item is an [interface{}]; the controller only ever adds strings. *)
Inductive item := ItemString (s : string) | ItemOther (tag : nat).

#[global] Instance item_eq_dec : EqDecision item.
Proof. solve_decision. Defined.

#[global] Instance item_countable : Countable item.
Proof.
  refine (inj_countable'
            (λ i, match i with ItemString s => inl s | ItemOther n => inr n end)
            (λ x, match x with inl s => ItemString s | inr n => ItemOther n end) _).
  by intros [].
Defined.

Definition slash : Ascii.ascii := Ascii.ascii_of_nat 47.

(** [strings.Split(s, sep)] for a one-character separator. *)
Fixpoint split_on (sep : Ascii.ascii) (s : string) : list string :=
  match s with
  | EmptyString => [EmptyString]
  | String c s' =>
      if Ascii.eqb c sep then EmptyString :: split_on sep s'
      else match split_on sep s' with
           | [] => [String c EmptyString]
           | p :: ps => String c p :: ps
           end
  end.

(** The number of slashes of a key. *)
Fixpoint slashes (s : string) : nat :=
  match s with
  | EmptyString => 0
  | String c s' => (if Ascii.eqb c slash then 1 else 0) + slashes s'
  end.

(** Modelled from the spec: [cache.SplitMetaNamespaceKey] of client-go is not
    part of the sources; the work item wire form is a single string
    [<namespace>/<name>], any other shape is a decode error. A key without a
    slash is a name in the empty namespace. *)
Definition SplitMetaNamespaceKey (key : string) : string * string * option error :=
  match split_on slash key with
  | [name] => (EmptyString, name, None)
  | [namespace; name] => (namespace, name, None)
  | _ => (EmptyString, EmptyString, Some (Errorf ("unexpected key format: " +:+ key)))
  end.

(** Modelled from the spec: [cache.MetaNamespaceKeyFunc] of client-go is not
    part of the sources; it makes the key [<namespace>/<name>] of an API
    object (the bare name when the namespace is empty) and fails on a value
    that has no metadata. *)
Definition MetaNamespaceKeyFunc (obj : Any) : string * option error :=
  match asMetaObject obj with
  | Some m =>
      if decide (Namespace m = EmptyString) then (Name m, None)
      else (Namespace m +:+ String slash EmptyString +:+ Name m, None)
  | None => (EmptyString, Some (Errorf "object has no meta"))
  end.

(** ** The work queue *)

(** Modelled from the spec: the rate-limited work queue of client-go
    ([workqueue.RateLimitingInterface]) is not part of the sources.  [Add]
    coalesces a key that is already pending, and defers one that is being
    processed until [Done]; [Get] hands out the oldest pending key, or reports
    shutdown, or blocks; [Done] releases the key; [AddRateLimited] enqueues
    after a delay that doubles with every requeue of that key since the last
    [Forget]; [Forget] clears that count. *)
Record WorkQueue := mkWorkQueue {
  pending : list item;
  dirty : gset item;
  processing : gset item;
  waiting : list (item * nat);
  failures : gmap item nat;
  baseDelay : nat;
  shuttingDown : bool
}.

Inductive GetResult :=
| GetBlocked
| GetShutdown
| GetItem (i : item) (q : WorkQueue).

Module wq.

Definition Add (i : item) (q : WorkQueue) : WorkQueue :=
  if shuttingDown q then q
  else if decide (i ∈ dirty q) then q
  else
    mkWorkQueue
      (if decide (i ∈ processing q) then pending q else pending q ++ [i])
      ({[i]} ∪ dirty q) (processing q) (waiting q) (failures q)
      (baseDelay q) (shuttingDown q).

Definition Get (q : WorkQueue) : GetResult :=
  match pending q with
  | [] => if shuttingDown q then GetShutdown else GetBlocked
  | i :: rest =>
      GetItem i
        (mkWorkQueue rest (dirty q ∖ {[i]}) ({[i]} ∪ processing q)
           (waiting q) (failures q) (baseDelay q) (shuttingDown q))
  end.

Definition Done (i : item) (q : WorkQueue) : WorkQueue :=
  mkWorkQueue
    (if decide (i ∈ dirty q) then pending q ++ [i] else pending q)
    (dirty q) (processing q ∖ {[i]}) (waiting q) (failures q)
    (baseDelay q) (shuttingDown q).

Definition NumRequeues (i : item) (q : WorkQueue) : nat :=
  default 0 (failures q !! i).

(** The rate limiter's delay for the next requeue of [i]. *)
Definition When (i : item) (q : WorkQueue) : nat :=
  baseDelay q * 2 ^ NumRequeues i q.

Definition Forget (i : item) (q : WorkQueue) : WorkQueue :=
  mkWorkQueue (pending q) (dirty q) (processing q) (waiting q)
    (delete i (failures q)) (baseDelay q) (shuttingDown q).

Definition AddAfter (i : item) (delay : nat) (q : WorkQueue) : WorkQueue :=
  if shuttingDown q then q
  else if decide (delay = 0) then Add i q
  else
    mkWorkQueue (pending q) (dirty q) (processing q)
      (waiting q ++ [(i, delay)]) (failures q) (baseDelay q) (shuttingDown q).

Definition AddRateLimited (i : item) (q : WorkQueue) : WorkQueue :=
  let delay := When i q in
  AddAfter i delay
    (mkWorkQueue (pending q) (dirty q) (processing q) (waiting q)
       (<[i := S (NumRequeues i q)]> (failures q)) (baseDelay q) (shuttingDown q)).

(** Every place of the queue from which an item can still reach a worker. *)
Definition scheduled (i : item) (q : WorkQueue) : Prop :=
  i ∈ pending q ∨ i ∈ dirty q ∨ i ∈ (waiting q).*1.

#[global] Instance scheduled_dec i q : Decision (scheduled i q).
Proof. unfold scheduled. apply _. Defined.

End wq.

(** ** The trace of calls that leave the controller *)

Inductive Event :=
| EvGet (i : item)
| EvDone (i : item)
| EvForget (i : item)
| EvAddRateLimited (i : item)
| EvCreate (k : Kind) (namespace : string) (o : Object) (err : option error)
| EvUpdate (namespace : string) (chi : ClickHouseInstallation) (err : option error)
| EvControlledValuesExist (chiName : string) (hostnames : list string) (res : bool)
| EvUpdateControlledState (chiName : string) (hostnames : list string)
| EvInfo (v : nat) (msg : string)
| EvHandleError (err : error).

Definition isCreate (e : Event) : bool :=
  match e with EvCreate _ _ _ _ => true | _ => false end.

Definition isUpdate (e : Event) : bool :=
  match e with EvUpdate _ _ _ => true | _ => false end.

Definition isEnqueue (e : Event) : bool :=
  match e with EvAddRateLimited _ => true | _ => false end.

Definition isLog (e : Event) : bool :=
  match e with EvInfo _ _ | EvHandleError _ => true | _ => false end.

Definition isGet (e : Event) : bool :=
  match e with EvGet _ => true | _ => false end.

Definition isDone (e : Event) : bool :=
  match e with EvDone _ => true | _ => false end.

Definition isForget (e : Event) : bool :=
  match e with EvForget _ => true | _ => false end.

Definition isQueueCall (e : Event) : bool :=
  match e with
  | EvGet _ | EvDone _ | EvForget _ | EvAddRateLimited _ => true
  | _ => false
  end.

Definition isExporterCall (e : Event) : bool :=
  match e with
  | EvControlledValuesExist _ _ _ | EvUpdateControlledState _ _ => true
  | _ => false
  end.

(** ** The world the controller runs in *)

(** The watch cache behind the listers, the Store behind the typed clients
    (both indexed by namespace and name, the dependent objects by kind too),
    the calls that the cache or the Store fail for a reason of their own
    (with the message of the failure), the work queue and the state of the
    metrics exporter. *)
Record World := mkWorld {
  chiCache : gmap (string * string) ClickHouseInstallation;
  chiLookupErrors : gmap (string * string) string;
  depCache : gmap (Kind * string * string) Object;
  depLookupErrors : gmap (Kind * string * string) string;
  chiStore : gmap (string * string) ClickHouseInstallation;
  updateErrors : gmap (string * string) string;
  depStore : gmap (Kind * string * string) Object;
  createErrors : gmap (Kind * string * string) string;
  queue : WorkQueue;
  exporter : gmap string (list string)
}.

Definition setChiStore (m : gmap (string * string) ClickHouseInstallation) (w : World) : World :=
  mkWorld (chiCache w) (chiLookupErrors w) (depCache w) (depLookupErrors w)
    m (updateErrors w) (depStore w) (createErrors w) (queue w) (exporter w).

Definition setDepStore (m : gmap (Kind * string * string) Object) (w : World) : World :=
  mkWorld (chiCache w) (chiLookupErrors w) (depCache w) (depLookupErrors w)
    (chiStore w) (updateErrors w) m (createErrors w) (queue w) (exporter w).

Definition setDepCache (m : gmap (Kind * string * string) Object) (w : World) : World :=
  mkWorld (chiCache w) (chiLookupErrors w) m (depLookupErrors w)
    (chiStore w) (updateErrors w) (depStore w) (createErrors w) (queue w) (exporter w).

Definition setQueue (q : WorkQueue) (w : World) : World :=
  mkWorld (chiCache w) (chiLookupErrors w) (depCache w) (depLookupErrors w)
    (chiStore w) (updateErrors w) (depStore w) (createErrors w) q (exporter w).

Definition setExporter (x : gmap string (list string)) (w : World) : World :=
  mkWorld (chiCache w) (chiLookupErrors w) (depCache w) (depLookupErrors w)
    (chiStore w) (updateErrors w) (depStore w) (createErrors w) (queue w) x.

(** ** The monad of the controller's methods *)

(** A method runs from a world to its result, the world it leaves and the
    calls it made, in order. *)
Record Run (A : Type) := mkRun { value : A; after : World; events : list Event }.
Arguments mkRun {A} _ _ _.
Arguments value {A} _.
Arguments after {A} _.
Arguments events {A} _.

Definition M (A : Type) : Type := World → Run A.

Definition ret {A} (a : A) : M A := λ w, mkRun a w [].

Definition bind {A B} (m : M A) (f : A → M B) : M B :=
  λ w,
    let r1 := m w in
    let r2 := f (value r1) (after r1) in
    mkRun (value r2) (after r2) (events r1 ++ events r2).

Declare Scope chi_scope.
Delimit Scope chi_scope with chi.
Notation "x <- m ;; k" := (bind m (λ x, k))
  (at level 100, m at next level, right associativity) : chi_scope.
Notation "m ;; k" := (bind m (λ _, k))
  (at level 100, right associativity) : chi_scope.
Open Scope chi_scope.

Definition emit (e : Event) : M unit := λ w, mkRun tt w [e].

Definition Infof (v : nat) (msg : string) : M unit := emit (EvInfo v msg).

Definition HandleError (err : error) : M unit := emit (EvHandleError err).

(** ** Collaborators *)

(** Modelled from the spec: the watch cache contract is an indexed [Get] by
    namespace and name that yields the object or NotFound.  A lister call
    returns the cached object, or the error the cache raises for that
    lookup (never a NotFound), or NotFound when the object is not cached.
    Nothing is written: the cache is read-only for the controller. *)
Definition cacheGet {K A} `{Countable K} (errors : gmap K string) (cache : gmap K A)
           (key : K) (name : string) : A + error :=
  match errors !! key with
  | Some msg => inr (Errorf msg)
  | None =>
      match cache !! key with
      | Some a => inl a
      | None => inr (NewNotFound name)
      end
  end.

Definition chopLister_Get (namespace name : string) : M (ClickHouseInstallation + error) :=
  λ w, mkRun (cacheGet (chiLookupErrors w) (chiCache w) (namespace, name) name) w [].

Definition lister_Get (k : Kind) (namespace name : string) : M (Object + error) :=
  λ w, mkRun (cacheGet (depLookupErrors w) (depCache w) (k, namespace, name) name) w [].

Definition configMapLister_Get := lister_Get KConfigMap.
Definition serviceLister_Get := lister_Get KService.
Definition statefulSetLister_Get := lister_Get KStatefulSet.

(** Modelled from the spec: the Store client contract is
    [Create(object) → object | AlreadyExists | error] and
    [Update(object) → object | error].  A create call fails with the error
    the Store raises for it, or with AlreadyExists when the name is taken,
    and stores the object otherwise.  Writes go to the Store only, never to
    the watch cache. *)
Definition storeCreate (k : Kind) (namespace : string) (o : Object) (w : World)
  : option error * World :=
  let key := (k, namespace, Name (Meta o)) in
  match createErrors w !! key with
  | Some msg => (Some (Errorf msg), w)
  | None =>
      match depStore w !! key with
      | Some _ => (Some (NewAlreadyExists (Name (Meta o))), w)
      | None => (None, setDepStore (<[key := o]> (depStore w)) w)
      end
  end.

Definition kubeClient_Create (k : Kind) (namespace : string) (o : Object) : M (option error) :=
  λ w,
    let r := storeCreate k namespace o w in
    mkRun r.1 r.2 [EvCreate k namespace o r.1].

Definition storeUpdate (namespace : string) (chi : ClickHouseInstallation) (w : World)
  : option error * World :=
  let key := (namespace, Name (ChiMeta chi)) in
  match updateErrors w !! key with
  | Some msg => (Some (Errorf msg), w)
  | None => (None, setChiStore (<[key := chi]> (chiStore w)) w)
  end.

Definition chopClient_Update (namespace : string) (chi : ClickHouseInstallation)
  : M (option error) :=
  λ w,
    let r := storeUpdate namespace chi w in
    mkRun r.1 r.2 [EvUpdate namespace chi r.1].

(** Modelled from the spec: the metrics exporter ([chopmetrics.Exporter]) is
    not part of the sources; the inventory tracker contract is
    [ControlledValuesExist(ownerName, identities) → bool] and
    [UpdateControlledState(ownerName, identities)]: it records one identity
    list per owner and tells whether the recorded list is the given one. *)
Definition metricsExporter_ControlledValuesExist (chiName : string) (hostnames : list string)
  : M bool :=
  λ w,
    let res := bool_decide (exporter w !! chiName = Some hostnames) in
    mkRun res w [EvControlledValuesExist chiName hostnames res].

Definition metricsExporter_UpdateControlledState (chiName : string) (hostnames : list string)
  : M unit :=
  λ w,
    mkRun tt (setExporter (<[chiName := hostnames]> (exporter w)) w)
      [EvUpdateControlledState chiName hostnames].

(** The queue calls of the controller. *)
Definition queue_Done (i : item) : M unit :=
  λ w, mkRun tt (setQueue (wq.Done i (queue w)) w) [EvDone i].

Definition queue_Forget (i : item) : M unit :=
  λ w, mkRun tt (setQueue (wq.Forget i (queue w)) w) [EvForget i].

Definition queue_AddRateLimited (i : item) : M unit :=
  λ w, mkRun tt (setQueue (wq.AddRateLimited i (queue w)) w) [EvAddRateLimited i].

(** Go's [%q] of a string (escapes are not modelled) and [%v] of a string
    slice. *)
Definition quoted (s : string) : string :=
  let dq := String (Ascii.ascii_of_nat 34) EmptyString in dq +:+ s +:+ dq.

Definition formatStrings (l : list string) : string :=
  "[" +:+ String.concat " " l +:+ "]".

(** ** The controller *)

(** The manifest generator and the naming functions of [pkg/parser], and the
    kind constant of [pkg/apis], are outside the sources: the controller is
    verified for every choice of them. *)
Class Parser := mkParser {
  CreateObjects : ClickHouseInstallation → list ObjectList * list string;
  CreateStatefulSetName : string → string;
  CreatePodHostname : string → string → string;
  ClickHouseInstallationCRDResourceKind : string
}.

Section Controller.

Context `{Parser}.

(** [chi.DeepCopy()]: values are immutable here, a copy is the value. *)
Definition DeepCopy (chi : ClickHouseInstallation) : ClickHouseInstallation := chi.

(** createConfigMap creates core.ConfigMap resource *)
Definition createConfigMap (chi : ClickHouseInstallation) (newConfigMap : Object)
  : M (option error) :=
  r <- configMapLister_Get (Namespace (ChiMeta chi)) (Name (Meta newConfigMap)) ;;
  match r with
  | inl _ => ret None
  | inr err =>
      err <- (if IsNotFound err
              then kubeClient_Create KConfigMap (Namespace (ChiMeta chi)) newConfigMap
              else ret (Some err)) ;;
      match err with
      | Some e => ret (Some e)
      | None => ret None
      end
  end.

(** createService creates core.Service resource *)
Definition createService (chi : ClickHouseInstallation) (newService : Object)
  : M (option error) :=
  r <- serviceLister_Get (Namespace (ChiMeta chi)) (Name (Meta newService)) ;;
  match r with
  | inl _ => ret None
  | inr err =>
      err <- (if IsNotFound err
              then kubeClient_Create KService (Namespace (ChiMeta chi)) newService
              else ret (Some err)) ;;
      match err with
      | Some e => ret (Some e)
      | None => ret None
      end
  end.

(** createStatefulSet creates apps.StatefulSet resource *)
Definition createStatefulSet (chi : ClickHouseInstallation) (newStatefulSet : Object)
  : M (option error) :=
  r <- statefulSetLister_Get (Namespace (ChiMeta chi)) (Name (Meta newStatefulSet)) ;;
  match r with
  | inl _ => ret None
  | inr err =>
      err <- (if IsNotFound err
              then kubeClient_Create KStatefulSet (Namespace (ChiMeta chi)) newStatefulSet
              else ret (Some err)) ;;
      match err with
      | Some e => ret (Some e)
      | None => ret None
      end
  end.

(** A [for _, obj := range v] loop that returns at the first error. *)
Fixpoint forEach {A} (f : A → M (option error)) (v : list A) : M (option error) :=
  match v with
  | [] => ret None
  | obj :: rest =>
      err <- f obj ;;
      match err with
      | Some e => ret (Some e)
      | None => forEach f rest
      end
  end.

(** createControlledResources creates k8s resouces based on
    ClickHouseInstallation object specification *)
Definition createControlledResources (chi : ClickHouseInstallation)
  : M (list string * option error) :=
  let chiCopy := DeepCopy chi in
  let '(chiObjects, prefixes) := CreateObjects chiCopy in
  err <- forEach
           (λ objList,
              match objList with
              | ConfigMapList v => forEach (createConfigMap chiCopy) v
              | ServiceList v => forEach (createService chiCopy) v
              | StatefulSetList v => forEach (createStatefulSet chiCopy) v
              end)
           chiObjects ;;
  match err with
  | Some e => ret ([], Some e)
  | None => ret (prefixes, None)
  end.

(** updateChiStatus updates .status section of ClickHouseInstallation
    resource *)
Definition updateChiStatus (chi : ClickHouseInstallation) (objectPrefixes : list string)
  : M (option error) :=
  let chiCopy := DeepCopy chi in
  let chiCopy := mkChi (ChiMeta chiCopy) (Spec chiCopy) (mkChiStatus objectPrefixes) in
  chopClient_Update (Namespace (ChiMeta chi)) chiCopy.

(** The body of the verification loop for the prefix at index [i]. *)
Definition verifyPrefix (chi : ClickHouseInstallation) (i : nat) (prefix : string)
           (chHostnames : list string) : M (list string) :=
  let ssName := CreateStatefulSetName prefix in
  r <- statefulSetLister_Get (Namespace (ChiMeta chi)) ssName ;;
  match r with
  | inl _ =>
      Infof 2 ("ClickHouseInstallation (" +:+ quoted (Name (ChiMeta chi))
               +:+ ") controls StatefulSet: " +:+ quoted ssName) ;;
      ret (<[i := CreatePodHostname (Namespace (ChiMeta chi)) prefix]> chHostnames)
  | inr _ => ret chHostnames
  end.

(** [for i, prefix := range prefixes] from index [i] on. *)
Fixpoint verifyPrefixes (chi : ClickHouseInstallation) (i : nat) (prefixes : list string)
         (chHostnames : list string) : M (list string) :=
  match prefixes with
  | [] => ret chHostnames
  | prefix :: rest =>
      chHostnames <- verifyPrefix chi i prefix chHostnames ;;
      verifyPrefixes chi (S i) rest chHostnames
  end.

(** syncItem applies reconciliation actions to watched objects *)
Definition syncItem (key : string) : M (option error) :=
  let '(namespace, name, err) := SplitMetaNamespaceKey key in
  match err with
  | Some _ =>
      HandleError (Errorf ("incorrect resource key: " +:+ key)) ;;
      ret None
  | None =>
      r <- chopLister_Get namespace name ;;
      match r with
      | inr err =>
          if IsNotFound err then
            HandleError (Errorf ("ClickHouseInstallation object '" +:+ key
                                 +:+ "' no longer exists in the work queue")) ;;
            ret None
          else ret (Some err)
      | inl chi =>
          if decide (length (ObjectPrefixes (Status chi)) = 0) then
            res <- createControlledResources chi ;;
            let '(prefixes, err) := res in
            match err with
            | Some e =>
                Infof 2 ("ClickHouseInstallation (" +:+ quoted (Name (ChiMeta chi))
                         +:+ "): unable to create controlled resources: "
                         +:+ quoted (ErrorMessage e)) ;;
                ret (Some e)
            | None =>
                err <- updateChiStatus chi prefixes ;;
                match err with
                | Some e =>
                    Infof 2 ("ClickHouseInstallation (" +:+ quoted (Name (ChiMeta chi))
                             +:+ "): unable to update status of CHI resource: "
                             +:+ quoted (ErrorMessage e)) ;;
                    ret (Some e)
                | None =>
                    Infof 2 ("ClickHouseInstallation (" +:+ quoted (Name (ChiMeta chi))
                             +:+ "): controlled resources are synced (created): "
                             +:+ formatStrings prefixes) ;;
                    ret None
                end
            end
          else
            let prefixesNum := length (ObjectPrefixes (Status chi)) in
            let chHostnames := replicate prefixesNum EmptyString in
            chHostnames <- verifyPrefixes chi 0 (ObjectPrefixes (Status chi)) chHostnames ;;
            exist <- metricsExporter_ControlledValuesExist (Name (ChiMeta chi)) chHostnames ;;
            if negb exist then
              Infof 2 ("ClickHouseInstallation (" +:+ quoted (Name (ChiMeta chi))
                       +:+ "): including hostnames into chopmetrics.Exporter") ;;
              metricsExporter_UpdateControlledState (Name (ChiMeta chi)) chHostnames ;;
              ret None
            else ret None
      end
  end.

(** processNextWorkItem processes objects from the workqueue.  [None] when
    [Get] blocks on an empty queue. *)
Definition processNextWorkItem (w : World) : option (Run bool) :=
  match wq.Get (queue w) with
  | GetBlocked => None
  | GetShutdown => Some (mkRun false w [])
  | GetItem i q =>
      let body : M (option error) :=
        err <- match i with
               | ItemOther _ =>
                   queue_Forget i ;;
                   HandleError (Errorf "unexpected item in the queue") ;;
                   ret None
               | ItemString stringItem =>
                   err <- syncItem stringItem ;;
                   match err with
                   | Some e =>
                       ret (Some (Errorf ("unable to sync an object '" +:+ stringItem
                                          +:+ "': " +:+ ErrorMessage e)))
                   | None =>
                       queue_Forget i ;;
                       ret None
                   end
               end ;;
        queue_Done i ;;
        ret err in
      Some ((emit (EvGet i) ;;
             err <- body ;;
             match err with
             | Some e => HandleError e ;; ret true
             | None => ret true
             end) (setQueue q w))
  end.

(** How far a worker got: it returned because the queue shut down, it is
    waiting in [Get] for an item, or it was not followed to its end. *)
Inductive WorkerEnd := WorkerStopped | WorkerBlocked | WorkerRunning.

(** runWorker is a convenience wrap over processNextWorkItem(): the loop
    [for c.processNextWorkItem() {}], followed for at most [fuel] passes. *)
Fixpoint runWorker (fuel : nat) (w : World) : Run WorkerEnd :=
  match fuel with
  | 0 => mkRun WorkerRunning w []
  | S fuel =>
      match processNextWorkItem w with
      | None => mkRun WorkerBlocked w []
      | Some r =>
          if value r then
            let rest := runWorker fuel (after r) in
            mkRun (value rest) (after rest) (events r ++ events rest)
          else mkRun WorkerStopped (after r) (events r)
      end
  end.

(** enqueueObject adds ClickHouseInstallation object to the workqueue *)
Definition enqueueObject (obj : Any) : M unit :=
  let '(key, err) := MetaNamespaceKeyFunc obj in
  match err with
  | Some e => HandleError e
  | None => queue_AddRateLimited (ItemString key)
  end.

Definition messageUnableToDecode : string := "Unable to decode object (invalid type)".

(** The part of [handleObject] after the payload is decoded. *)
Definition routeObject (object : ObjectMeta) : M unit :=
  match GetControllerOf object with
  | None => ret tt
  | Some ownerRef =>
      if negb (String.eqb (OwnerKind ownerRef) ClickHouseInstallationCRDResourceKind)
      then ret tt
      else
        Infof 2 ("Processing object: " +:+ Name object) ;;
        r <- chopLister_Get (Namespace object) (OwnerName ownerRef) ;;
        match r with
        | inr _ =>
            Infof 2 ("ignoring orphaned object '" +:+ SelfLink object
                     +:+ "' of ClickHouseInstallation '" +:+ OwnerName ownerRef +:+ "'")
        | inl chi => enqueueObject (AnyChi chi)
        end
  end.

(** handleObject enqueues CHI which is owner of `obj` into reconcile loop *)
Definition handleObject (obj : Any) : M unit :=
  match asMetaObject obj with
  | Some object => routeObject object
  | None =>
      match obj with
      | AnyDeletedFinalStateUnknown _ tsObj =>
          match asMetaObject tsObj with
          | Some object => routeObject object
          | None => HandleError (Errorf messageUnableToDecode)
          end
      | _ => HandleError (Errorf messageUnableToDecode)
      end
  end.

(** The event handlers [CreateController] registers with the informers. *)
Definition chopInformer_AddFunc (obj : Any) : M unit := enqueueObject obj.

Definition chopInformer_UpdateFunc (old new : Any) : M unit := enqueueObject new.

Definition ssInformer_AddFunc (obj : Any) : M unit := handleObject obj.

Definition ssInformer_UpdateFunc (old new : Object) : M unit :=
  if String.eqb (ResourceVersion (Meta new)) (ResourceVersion (Meta old)) then ret tt
  else handleObject (AnyObject KStatefulSet new).

Definition ssInformer_DeleteFunc (obj : Any) : M unit := handleObject obj.

End Controller.

(** ** Notions the properties are stated with *)

(** The generated objects in the order the creation phase handles them,
    each with its kind. *)
Definition dependents (chiObjects : list ObjectList) : list (Kind * Object) :=
  flat_map (λ objList,
              match objList with
              | ConfigMapList v => (λ o, (KConfigMap, o)) <$> v
              | ServiceList v => (λ o, (KService, o)) <$> v
              | StatefulSetList v => (λ o, (KStatefulSet, o)) <$> v
              end) chiObjects.

(** Where a dependent object of [chi] lives in the cache and in the Store. *)
Definition depKey (chi : ClickHouseInstallation) (d : Kind * Object) : Kind * string * string :=
  (d.1, Namespace (ChiMeta chi), Name (Meta d.2)).

(** The create helper of a kind. *)
Definition createDependent `{Parser} (chi : ClickHouseInstallation) (d : Kind * Object)
  : M (option error) :=
  match d.1 with
  | KConfigMap => createConfigMap chi d.2
  | KService => createService chi d.2
  | KStatefulSet => createStatefulSet chi d.2
  end.

(** What a create helper does, by cases on the cache and the Store. *)
Definition createOutcome (chi : ClickHouseInstallation) (d : Kind * Object) (w : World)
  : Run (option error) :=
  match cacheGet (depLookupErrors w) (depCache w) (depKey chi d) (Name (Meta d.2)) with
  | inl _ => mkRun None w []
  | inr err =>
      if IsNotFound err then kubeClient_Create d.1 (Namespace (ChiMeta chi)) d.2 w
      else mkRun (Some err) w []
  end.

(** The watch cache does not show the object: its lister answers NotFound. *)
Definition absentFromCache (k : Kind) (chi : ClickHouseInstallation) (o : Object) (w : World)
  : Prop :=
  ∃ err, value (lister_Get k (Namespace (ChiMeta chi)) (Name (Meta o)) w) = inr err
         ∧ IsNotFound err = true.

(** The Store's create call for the object fails with [e]. *)
Definition createFailsWith (k : Kind) (chi : ClickHouseInstallation) (o : Object) (w : World)
           (e : error) : Prop :=
  value (kubeClient_Create k (Namespace (ChiMeta chi)) o w) = Some e.

(** The key names a custom resource that the watch cache shows. *)
Definition resolves (key : string) (chi : ClickHouseInstallation) (w : World) : Prop :=
  ∃ namespace name,
    SplitMetaNamespaceKey key = (namespace, name, None)
    ∧ value (chopLister_Get namespace name w) = inl chi.

(** The error lines of [syncItem] and of the worker. *)
Definition errNoLongerExists (key : string) : error :=
  Errorf ("ClickHouseInstallation object '" +:+ key
          +:+ "' no longer exists in the work queue").

Definition errUnableToSync (key : string) (e : error) : error :=
  Errorf ("unable to sync an object '" +:+ key +:+ "': " +:+ ErrorMessage e).

(** The key under which the router enqueues a custom resource. *)
Definition ownerKey (chi : ClickHouseInstallation) : string :=
  (MetaNamespaceKeyFunc (AnyChi chi)).1.

(** The log lines of [syncItem]. *)
Definition logUnableToCreate (chi : ClickHouseInstallation) (e : error) : Event :=
  EvInfo 2 ("ClickHouseInstallation (" +:+ quoted (Name (ChiMeta chi))
            +:+ "): unable to create controlled resources: " +:+ quoted (ErrorMessage e)).

Definition logUnableToUpdate (chi : ClickHouseInstallation) (e : error) : Event :=
  EvInfo 2 ("ClickHouseInstallation (" +:+ quoted (Name (ChiMeta chi))
            +:+ "): unable to update status of CHI resource: " +:+ quoted (ErrorMessage e)).

Definition logSynced (chi : ClickHouseInstallation) (prefixes : list string) : Event :=
  EvInfo 2 ("ClickHouseInstallation (" +:+ quoted (Name (ChiMeta chi))
            +:+ "): controlled resources are synced (created): " +:+ formatStrings prefixes).

Definition logIncluding (chi : ClickHouseInstallation) : Event :=
  EvInfo 2 ("ClickHouseInstallation (" +:+ quoted (Name (ChiMeta chi))
            +:+ "): including hostnames into chopmetrics.Exporter").

(** The custom resource with the status the Status Updater writes. *)
Definition withPrefixes (chi : ClickHouseInstallation) (prefixes : list string)
  : ClickHouseInstallation :=
  mkChi (ChiMeta chi) (Spec chi) (mkChiStatus prefixes).

(** The Store keys of the create calls of a trace that stored an object. *)
Definition storedBy (e : Event) : list (Kind * string * string) :=
  match e with
  | EvCreate k namespace o None => [(k, namespace, Name (Meta o))]
  | _ => []
  end.

Definition stored (t : list Event) : list (Kind * string * string) :=
  flat_map storedBy t.

Definition count_stored (key : Kind * string * string) (t : list Event) : nat :=
  length (filter (λ key', key' = key) (stored t)).

(** What a successful run of the creation loop over [l] from [w] to [w']
    with the calls [t] has done about a Store key: a key of [l] that the
    cache did not show was free, was stored by exactly one create call and
    is taken now; no other key was stored. *)
Definition creationDone (chi : ClickHouseInstallation) (l : list (Kind * Object))
           (w w' : World) (t : list Event) (key : Kind * string * string) : Prop :=
  (key ∈ depKey chi <$> l → depLookupErrors w !! key = None)
  ∧ (is_Some (depStore w !! key) → is_Some (depStore w' !! key))
  ∧ if decide (key ∈ depKey chi <$> l ∧ depCache w !! key = None)
    then count_stored key t = 1 ∧ depStore w !! key = None ∧ is_Some (depStore w' !! key)
    else count_stored key t = 0.

(** The object a dependent-object event is about: the payload itself, or the
    last known object a tombstone wraps. *)
Definition eventObject (obj : Any) : option ObjectMeta :=
  match obj with
  | AnyDeletedFinalStateUnknown _ tsObj => asMetaObject tsObj
  | _ => asMetaObject obj
  end.

(** The custom resource a dependent-object event is routed to, if any: the
    event must decode, its object must have a controller owner reference of
    the ClickHouseInstallation kind, and the lister must find the owner in
    the namespace of the object. *)
Definition routedOwner `{Parser} (obj : Any) (w : World) : option ClickHouseInstallation :=
  match eventObject obj with
  | None => None
  | Some object =>
      match GetControllerOf object with
      | None => None
      | Some ownerRef =>
          if String.eqb (OwnerKind ownerRef) ClickHouseInstallationCRDResourceKind then
            match value (chopLister_Get (Namespace object) (OwnerName ownerRef) w) with
            | inl chi => Some chi
            | inr _ => None
            end
          else None
      end
  end.

(** Neither the watch cache nor the Store knows the object, and neither
    fails its call. *)
Definition unknown (chi : ClickHouseInstallation) (w : World) (d : Kind * Object) : Prop :=
  depLookupErrors w !! depKey chi d = None
  ∧ depCache w !! depKey chi d = None
  ∧ createErrors w !! depKey chi d = None
  ∧ depStore w !! depKey chi d = None.

(** The create call that stores a dependent object. *)
Definition createdEvent (chi : ClickHouseInstallation) (d : Kind * Object) : Event :=
  EvCreate d.1 (Namespace (ChiMeta chi)) d.2 None.

(** The watch cache catches up with the Store: every stored object is now
    cached (objects the cache already showed stay). *)
Definition cacheCatchUp (w : World) : World :=
  setDepCache (depStore w ∪ depCache w) w.

(** What the verification phase records for a prefix: the pod hostname when
    the lookup of its StatefulSet succeeds, the empty string otherwise. *)
Definition hostnameOf `{Parser} (chi : ClickHouseInstallation) (w : World) (prefix : string)
  : string :=
  match value (statefulSetLister_Get (Namespace (ChiMeta chi)) (CreateStatefulSetName prefix) w) with
  | inl _ => CreatePodHostname (Namespace (ChiMeta chi)) prefix
  | inr _ => EmptyString
  end.

(** The log lines of the verification loop: one per prefix whose StatefulSet
    is found, none for a prefix whose StatefulSet is missing. *)
Definition controlsLines `{Parser} (chi : ClickHouseInstallation) (w : World)
           (prefixes : list string) : list Event :=
  flat_map (λ prefix,
              match value (statefulSetLister_Get (Namespace (ChiMeta chi))
                             (CreateStatefulSetName prefix) w) with
              | inl _ =>
                  [EvInfo 2 ("ClickHouseInstallation (" +:+ quoted (Name (ChiMeta chi))
                             +:+ ") controls StatefulSet: "
                             +:+ quoted (CreateStatefulSetName prefix))]
              | inr _ => []
              end) prefixes.

(** ** A concrete installation

    Custom resource [demo] in namespace [ns1]; the manifest generator yields
    the prefixes [demo-0] and [demo-1] and one object per prefix and kind. *)
Module Demo.

Definition meta (name : string) (owners : list OwnerReference) : ObjectMeta :=
  mkObjectMeta name "ns1" "1" ("/ns1/" +:+ name) owners.

Definition chi : ClickHouseInstallation :=
  mkChi (meta "demo" []) "replicas: 2" (mkChiStatus []).

Definition ownedByDemo : OwnerReference :=
  mkOwnerReference "ClickHouseInstallation" "demo" (Some true).

Definition object (name : string) : Object := mkObject (meta name [ownedByDemo]) "body".

Definition parser : Parser :=
  mkParser
    (λ _, ([ConfigMapList [object "cm-demo-0"; object "cm-demo-1"];
            ServiceList [object "svc-demo-0"; object "svc-demo-1"];
            StatefulSetList [object "ss-demo-0"; object "ss-demo-1"]],
           ["demo-0"; "demo-1"]))
    (λ prefix, "ss-" +:+ prefix)
    (λ namespace prefix, prefix +:+ "." +:+ namespace)
    "ClickHouseInstallation".

Definition key : string := "ns1/demo".

Definition emptyQueue : WorkQueue := mkWorkQueue [] ∅ ∅ [] ∅ 5 false.

(** Nothing created yet; the custom resource is cached and queued. *)
Definition fresh : World :=
  mkWorld {[ ("ns1", "demo") := chi ]} ∅ ∅ ∅ {[ ("ns1", "demo") := chi ]} ∅ ∅ ∅
    (wq.Add (ItemString key) emptyQueue) ∅.

(** The Store fails every create of the second service. *)
Definition failing : World :=
  mkWorld (chiCache fresh) ∅ ∅ ∅ (chiStore fresh)
    ∅ ∅ {[ (KService, "ns1", "svc-demo-1") := "connection refused" ]}
    (queue fresh) ∅.

(** Another creator has stored the first config map; the cache does not
    show it yet. *)
Definition raced : World :=
  mkWorld (chiCache fresh) ∅ ∅ ∅ (chiStore fresh)
    ∅ {[ (KConfigMap, "ns1", "cm-demo-0") := object "cm-demo-0" ]} ∅
    (queue fresh) ∅.

(** The custom resource was deleted after its key was queued. *)
Definition gone : World :=
  mkWorld ∅ ∅ ∅ ∅ ∅ ∅ ∅ ∅ (queue fresh) ∅.

(** The status records both prefixes; the StatefulSet of the second is
    missing from the cache. *)
Definition synced : ClickHouseInstallation :=
  mkChi (meta "demo" []) "replicas: 2" (mkChiStatus ["demo-0"; "demo-1"]).

Definition drifted : World :=
  mkWorld {[ ("ns1", "demo") := synced ]} ∅
    {[ (KStatefulSet, "ns1", "ss-demo-0") := object "ss-demo-0" ]} ∅
    {[ ("ns1", "demo") := synced ]} ∅
    {[ (KStatefulSet, "ns1", "ss-demo-0") := object "ss-demo-0" ]} ∅
    (queue fresh) ∅.

(** Both StatefulSets are missing and the exporter already records two
    empty identities. *)
Definition lost : World :=
  mkWorld {[ ("ns1", "demo") := synced ]} ∅ ∅ ∅
    {[ ("ns1", "demo") := synced ]} ∅ ∅ ∅
    (queue fresh) {[ "demo" := [EmptyString; EmptyString] ]}.

(** The queue once a worker has taken the key. *)
Definition taken : WorkQueue :=
  match wq.Get (queue fresh) with
  | GetItem _ q => q
  | _ => emptyQueue
  end.

(** The lister fails the lookup of the custom resource with an error of its
    own. *)
Definition unreadable : World :=
  mkWorld (chiCache fresh) {[ ("ns1", "demo") := "index unavailable" ]} ∅ ∅
    (chiStore fresh) ∅ ∅ ∅ (queue fresh) ∅.

(** A queue whose only item is not a string, before and after [Get]. *)
Definition stray : World :=
  mkWorld (chiCache fresh) ∅ ∅ ∅ (chiStore fresh) ∅ ∅ ∅
    (wq.Add (ItemOther 7) emptyQueue) ∅.

Definition strayTaken : WorkQueue :=
  match wq.Get (queue stray) with
  | GetItem _ q => q
  | _ => emptyQueue
  end.

(** A manifest generator that yields the same config map twice. *)
Definition twins : Parser :=
  mkParser
    (λ _, ([ConfigMapList [object "cm-demo-0"; object "cm-demo-0"]], ["demo-0"]))
    (λ prefix, "ss-" +:+ prefix)
    (λ namespace prefix, prefix +:+ "." +:+ namespace)
    "ClickHouseInstallation".

(** A StatefulSet of [demo], as a live object and as a tombstone. *)
Definition liveStatefulSet : Any := AnyObject KStatefulSet (object "ss-demo-0").

Definition tombstone : Any := AnyDeletedFinalStateUnknown "ns1/ss-demo-0" liveStatefulSet.

(** A StatefulSet nobody controls, and one controlled by a Deployment. *)
Definition unowned : Any := AnyObject KStatefulSet (mkObject (meta "ss-x" []) "body").

Definition foreign : Any :=
  AnyObject KStatefulSet
    (mkObject (meta "ss-y" [mkOwnerReference "Deployment" "demo" (Some true)]) "body").

End Demo.

(** * Properties *)

Arguments createControlledResources : simpl never.
Arguments updateChiStatus : simpl never.
Arguments createDependent : simpl never.
Arguments syncItem : simpl never.
Arguments kubeClient_Create : simpl never.
Arguments chopClient_Update : simpl never.
Arguments cacheGet : simpl never.
Arguments wq.Get : simpl never.
Arguments wq.Done : simpl never.
Arguments wq.Forget : simpl never.
Arguments wq.AddRateLimited : simpl never.

(** One step of a run: sequencing and the results of the primitive calls
    that do nothing but return or log. *)
Ltac run :=
  unfold bind, ret, Infof, HandleError, emit;
  cbn [value after events app fst snd length negb].

Section Properties.

Context `{Parser}.

(** ** The monad *)

Lemma run_eta {A} (r : Run A) : r = mkRun (value r) (after r) (events r).
Proof. by destruct r. Qed.

Lemma bind_value {A B} (m : M A) (f : A → M B) w :
  value (bind m f w) = value (f (value (m w)) (after (m w))).
Proof. done. Qed.

Lemma bind_after {A B} (m : M A) (f : A → M B) w :
  after (bind m f w) = after (f (value (m w)) (after (m w))).
Proof. done. Qed.

Lemma bind_events {A B} (m : M A) (f : A → M B) w :
  events (bind m f w) = events (m w) ++ events (f (value (m w)) (after (m w))).
Proof. done. Qed.

(** ** The create helpers *)

Lemma createDependent_outcome chi d w : createDependent chi d w = createOutcome chi d w.
Proof.
  destruct d as [k o]. unfold createOutcome, depKey. simpl.
  destruct k; unfold createDependent; simpl.
  all: unfold createConfigMap, createService, createStatefulSet.
  all: unfold configMapLister_Get, serviceLister_Get, statefulSetLister_Get.
  all: unfold bind, lister_Get; simpl.
  all: destruct (cacheGet _ _ _ _) as [c|err]; simpl; [done|].
  all: destruct (IsNotFound err); simpl; [|done].
  all: unfold kubeClient_Create.
  all: by destruct (storeCreate _ _ o w) as [[e|] w'].
Qed.

Lemma createDependent_cached chi d w c :
  cacheGet (depLookupErrors w) (depCache w) (depKey chi d) (Name (Meta d.2)) = inl c →
  createDependent chi d w = mkRun None w [].
Proof. intros Hc. by rewrite createDependent_outcome; unfold createOutcome; rewrite Hc. Qed.

Lemma cacheGet_inl {K A} `{Countable K} (errors : gmap K string) (cache : gmap K A) key name c :
  cacheGet errors cache key name = inl c ↔ errors !! key = None ∧ cache !! key = Some c.
Proof.
  unfold cacheGet.
  destruct (errors !! key), (cache !! key);
    (split; [intros ?; split; congruence | intros [? ?]; congruence]).
Qed.

Lemma cacheGet_not_found {K A} `{Countable K} (errors : gmap K string) (cache : gmap K A)
      key name err :
  cacheGet errors cache key name = inr err →
  IsNotFound err = true ↔ errors !! key = None ∧ cache !! key = None.
Proof.
  unfold cacheGet.
  destruct (errors !! key), (cache !! key); intros [= <-];
    (split; [intros ?; split; (done || discriminate) | intros [? ?]; (done || discriminate)]).
Qed.

(** A create helper writes to the Store of dependent objects only. *)
Lemma storeCreate_frame k namespace o w :
  let w' := (storeCreate k namespace o w).2 in
  chiCache w' = chiCache w ∧ chiLookupErrors w' = chiLookupErrors w ∧
  depCache w' = depCache w ∧ depLookupErrors w' = depLookupErrors w ∧
  chiStore w' = chiStore w ∧ updateErrors w' = updateErrors w ∧
  createErrors w' = createErrors w ∧ queue w' = queue w ∧ exporter w' = exporter w.
Proof.
  unfold storeCreate. simpl.
  destruct (createErrors w !! _); [done|]. by destruct (depStore w !! _).
Qed.

Lemma createDependent_frame chi d w :
  let w' := after (createDependent chi d w) in
  chiCache w' = chiCache w ∧ chiLookupErrors w' = chiLookupErrors w ∧
  depCache w' = depCache w ∧ depLookupErrors w' = depLookupErrors w ∧
  chiStore w' = chiStore w ∧ updateErrors w' = updateErrors w ∧
  createErrors w' = createErrors w ∧ queue w' = queue w ∧ exporter w' = exporter w.
Proof.
  rewrite createDependent_outcome. unfold createOutcome.
  destruct (cacheGet _ _ _ _) as [c|err]; [done|].
  destruct (IsNotFound err); [|done]. apply storeCreate_frame.
Qed.

(** The only calls of a create helper are create calls, at most one. *)
Lemma createDependent_events chi d w :
  events (createDependent chi d w) = [] ∨
  ∃ err, events (createDependent chi d w)
         = [EvCreate d.1 (Namespace (ChiMeta chi)) d.2 err]
         ∧ value (createDependent chi d w) = err.
Proof.
  rewrite createDependent_outcome. unfold createOutcome.
  destruct (cacheGet _ _ _ _) as [c|err]; [by left|].
  destruct (IsNotFound err); [|by left]. right. by eexists.
Qed.

(** ** The creation phase *)

Lemma forEach_cons {A} (f : A → M (option error)) a l w :
  forEach f (a :: l) w =
  match value (f a w) with
  | Some e => mkRun (Some e) (after (f a w)) (events (f a w))
  | None =>
      let r := forEach f l (after (f a w)) in
      mkRun (value r) (after r) (events (f a w) ++ events r)
  end.
Proof.
  simpl. unfold bind. destruct (f a w) as [[e|] w' t]; simpl; [|done].
  by rewrite app_nil_r.
Qed.

Lemma forEach_app {A} (f : A → M (option error)) l1 l2 w :
  forEach f (l1 ++ l2) w =
  match value (forEach f l1 w) with
  | Some e => forEach f l1 w
  | None =>
      let r := forEach f l2 (after (forEach f l1 w)) in
      mkRun (value r) (after r) (events (forEach f l1 w) ++ events r)
  end.
Proof.
  revert w. induction l1 as [|a l1 IH]; intros w.
  - simpl. apply run_eta.
  - rewrite <- app_comm_cons, !forEach_cons.
    destruct (value (f a w)) as [e|] eqn:Ha; simpl; [done|].
    rewrite IH.
    destruct (value (forEach f l1 (after (f a w)))) as [e|] eqn:Hl; simpl.
    + rewrite <- Hl. done.
    + by rewrite app_assoc.
Qed.

Lemma forEach_fmap {A B} (g : B → A) (f : A → M (option error)) l w :
  forEach f (g <$> l) w = forEach (λ b, f (g b)) l w.
Proof.
  revert w. induction l as [|b l IH]; intros w; [done|].
  rewrite fmap_cons, !forEach_cons. destruct (value (f (g b) w)); [done|].
  simpl. by rewrite IH.
Qed.

(** The nested loops of the creation phase are one loop over the
    generated objects in order. *)
Lemma creation_loops chi chiObjects w :
  forEach
    (λ objList,
       match objList with
       | ConfigMapList v => forEach (createConfigMap chi) v
       | ServiceList v => forEach (createService chi) v
       | StatefulSetList v => forEach (createStatefulSet chi) v
       end) chiObjects w
  = forEach (createDependent chi) (dependents chiObjects) w.
Proof.
  revert w. induction chiObjects as [|objList rest IH]; intros w; [done|].
  rewrite forEach_cons. unfold dependents. simpl. fold (dependents rest).
  rewrite forEach_app.
  assert (Hhead :
            match objList with
            | ConfigMapList v => forEach (createConfigMap chi) v
            | ServiceList v => forEach (createService chi) v
            | StatefulSetList v => forEach (createStatefulSet chi) v
            end w
            = forEach (createDependent chi)
                match objList with
                | ConfigMapList v => (λ o, (KConfigMap, o)) <$> v
                | ServiceList v => (λ o, (KService, o)) <$> v
                | StatefulSetList v => (λ o, (KStatefulSet, o)) <$> v
                end w).
  { destruct objList; by rewrite forEach_fmap. }
  rewrite Hhead.
  destruct (value (forEach (createDependent chi) _ w)) as [e|] eqn:Hv.
  - rewrite <- Hv. symmetry. apply run_eta.
  - simpl. by rewrite IH.
Qed.

Lemma createControlledResources_run chi w :
  createControlledResources chi w =
  let r := forEach (createDependent chi) (dependents (CreateObjects chi).1) w in
  mkRun (match value r with
         | Some e => ([], Some e)
         | None => ((CreateObjects chi).2, None)
         end) (after r) (events r).
Proof.
  unfold createControlledResources, DeepCopy.
  destruct (CreateObjects chi) as [chiObjects prefixes]. simpl.
  unfold bind. rewrite creation_loops.
  destruct (forEach _ _ w) as [[e|] w' t]; simpl; by rewrite app_nil_r.
Qed.

(** The creation loop writes to the Store of dependent objects only, and
    its only calls are create calls. *)
Lemma creation_frame chi l w :
  let w' := after (forEach (createDependent chi) l w) in
  chiCache w' = chiCache w ∧ chiLookupErrors w' = chiLookupErrors w ∧
  depCache w' = depCache w ∧ depLookupErrors w' = depLookupErrors w ∧
  chiStore w' = chiStore w ∧ updateErrors w' = updateErrors w ∧
  createErrors w' = createErrors w ∧ queue w' = queue w ∧ exporter w' = exporter w.
Proof.
  revert w. induction l as [|d l IH]; intros w; [done|].
  rewrite forEach_cons.
  pose proof (createDependent_frame chi d w) as Hd. simpl in Hd.
  destruct (value (createDependent chi d w)); [exact Hd|].
  simpl. specialize (IH (after (createDependent chi d w))). simpl in IH.
  destruct Hd as (?&?&?&?&?&?&?&?&?), IH as (?&?&?&?&?&?&?&?&?).
  repeat split; congruence.
Qed.

Lemma creation_events chi l w :
  Forall (λ e, isCreate e = true) (events (forEach (createDependent chi) l w)).
Proof.
  revert w. induction l as [|d l IH]; intros w; [by constructor|].
  rewrite forEach_cons.
  assert (Forall (λ e, isCreate e = true) (events (createDependent chi d w))) as Hd.
  { destruct (createDependent_events chi d w) as [->|(err & -> & _)]; by repeat constructor. }
  destruct (value (createDependent chi d w)); [exact Hd|].
  simpl. apply Forall_app. split; [exact Hd|apply IH].
Qed.

Lemma createDependent_error chi d w e :
  value (createDependent chi d w) = Some e → after (createDependent chi d w) = w.
Proof.
  rewrite createDependent_outcome. unfold createOutcome.
  destruct (cacheGet _ _ _ _) as [c|err]; [done|].
  destruct (IsNotFound err); [|done].
  unfold kubeClient_Create, storeCreate. simpl.
  destruct (createErrors w !! _); [done|]. by destruct (depStore w !! _).
Qed.

Lemma if_decide_impl (P Q : Prop) `{Decision P, Decision Q} (A B A' B' : Prop) :
  (P ↔ Q) → (A → A') → (B → B') →
  (if decide P then A else B) → (if decide Q then A' else B').
Proof. intros [? ?] ? ?. destruct (decide P), (decide Q); tauto. Qed.

Lemma count_stored_app key t1 t2 :
  count_stored key (t1 ++ t2) = count_stored key t1 + count_stored key t2.
Proof.
  unfold count_stored, stored. by rewrite flat_map_app, filter_app, length_app.
Qed.

Lemma count_stored_create key k namespace o :
  count_stored key [EvCreate k namespace o None]
  = if decide ((k, namespace, Name (Meta o)) = key) then 1 else 0.
Proof.
  unfold count_stored, stored. simpl. rewrite filter_cons.
  by case_decide.
Qed.

(** A successful run of the creation loop, key by key. *)
Lemma creation_done chi l w key :
  value (forEach (createDependent chi) l w) = None →
  creationDone chi l w (after (forEach (createDependent chi) l w))
    (events (forEach (createDependent chi) l w)) key.
Proof.
  unfold creationDone. revert w. induction l as [|d l IH]; intros w Hok.
  { split; [by intros ?%elem_of_nil|]. split; [done|].
    case_decide as Hin; [|done]. by destruct Hin as [?%elem_of_nil _]. }
  revert Hok. rewrite forEach_cons.
  pose proof (createDependent_frame chi d w) as Hfr. cbn zeta in Hfr.
  revert Hfr. rewrite createDependent_outcome. unfold createOutcome.
  destruct (cacheGet _ _ _ _) as [c|err] eqn:Hget.
  - (* the cache shows the object *)
    intros _. cbn [value after events app]. intros Hok.
    apply cacheGet_inl in Hget as [Herr Hc].
    specialize (IH w Hok).
    destruct IH as (IHe & IHs & IHc). rewrite fmap_cons.
    split; [|split; [done|]].
    + intros [->|Hin]%elem_of_cons; [done|by apply IHe].
    + revert IHc. apply if_decide_impl; [|done|done].
      rewrite elem_of_cons. split; [by intros [? ?]; auto|].
      intros [[->|?] ?]; [congruence|done].
  - (* the cache does not show it *)
    pose proof (cacheGet_not_found _ _ _ _ _ Hget) as Hnf.
    destruct (IsNotFound err); [|by intros _ [=]].
    destruct Hnf as [[Herr Hc] _]; [done|].
    unfold kubeClient_Create, storeCreate. cbn [value after events fst snd].
    fold (depKey chi d).
    destruct (createErrors w !! depKey chi d); [by intros _ [=]|].
    destruct (depStore w !! depKey chi d) eqn:Hst; [by intros _ [=]|].
    cbn [value after events fst snd app].
    set (w' := setDepStore _ w). intros Hfr Hok.
    destruct Hfr as (_&_&Hcache&Hlerr&_).
    specialize (IH w' Hok). destruct IH as (IHe & IHs & IHc).
    rewrite fmap_cons.
    assert (depStore w' !! depKey chi d = Some d.2) as Hnew
        by (subst w'; simpl; apply lookup_insert_eq).
    split; [|split].
    + intros [->|Hin]%elem_of_cons; [done|]. rewrite <- Hlerr. by apply IHe.
    + intros Hs. apply IHs. subst w'. simpl.
      destruct (decide (depKey chi d = key)) as [->|Hne];
        [by rewrite lookup_insert_eq|by rewrite lookup_insert_ne].
    + change (EvCreate d.1 (Namespace (ChiMeta chi)) d.2 None
              :: events (forEach (createDependent chi) l w'))
        with ([EvCreate d.1 (Namespace (ChiMeta chi)) d.2 None]
                ++ events (forEach (createDependent chi) l w')).
      rewrite count_stored_app.
      destruct (decide (depKey chi d = key)) as [<-|Hne].
      * (* the key of [d]: stored now, so not stored again *)
        rewrite decide_True by (split; [apply elem_of_cons; by left|done]).
        case_decide as Hk'.
        { destruct IHc as (_ & Hfree & _). congruence. }
        rewrite IHc. split; [|split; [done|]].
        { rewrite count_stored_create. by rewrite decide_True. }
        apply IHs. by rewrite Hnew.
      * assert (count_stored key [EvCreate d.1 (Namespace (ChiMeta chi)) d.2 None] = 0)
          as -> by (rewrite count_stored_create; by rewrite decide_False).
        rewrite Hcache in IHc. revert IHc. apply if_decide_impl.
        -- rewrite elem_of_cons. split; [by intros [? ?]; auto|].
           intros [[->|?] ?]; done.
        -- intros (-> & Hfree & Hnow). split; [done|]. split; [|done].
           subst w'. simpl in Hfree. by rewrite lookup_insert_ne in Hfree.
        -- by intros ->.
Qed.

(** When the cache shows every object of [l], the creation loop does
    nothing. *)
Lemma creation_all_cached chi l w :
  (∀ d, d ∈ l → depLookupErrors w !! depKey chi d = None
                ∧ is_Some (depCache w !! depKey chi d)) →
  forEach (createDependent chi) l w = mkRun None w [].
Proof.
  induction l as [|d l IH]; intros Hall; [done|].
  rewrite forEach_cons.
  destruct (Hall d) as [Herr [c Hc]]; [apply elem_of_cons; by left|].
  rewrite (createDependent_cached chi d w c) by (by apply cacheGet_inl).
  cbn [value after events app]. rewrite IH; [done|].
  intros d' Hin. apply Hall, elem_of_cons. by right.
Qed.

(** ** The reconcile engine *)

(** [syncItem] in the creation phase. *)
Lemma syncItem_creation key chi w :
  resolves key chi w →
  ObjectPrefixes (Status chi) = [] →
  syncItem key w =
  let c := createControlledResources chi w in
  match (value c).2 with
  | Some e => mkRun (Some e) (after c) (events c ++ [logUnableToCreate chi e])
  | None =>
      let u := updateChiStatus chi (value c).1 (after c) in
      mkRun (value u) (after u)
        (events c ++ events u
         ++ [match value u with
             | Some e => logUnableToUpdate chi e
             | None => logSynced chi (value c).1
             end])
  end.
Proof.
  intros (namespace & name & Hkey & Hget) Hempty.
  unfold syncItem. rewrite Hkey. unfold chopLister_Get in *. run.
  cbn [value] in Hget. rewrite Hget.
  rewrite Hempty. run. case_decide; [|done].
  destruct (createControlledResources chi w) as [[prefixes [e|]] w1 t1]; run; [done|].
  destruct (updateChiStatus chi prefixes w1) as [[e|] w2 t2]; run; done.
Qed.

Lemma updateChiStatus_run chi prefixes w :
  updateChiStatus chi prefixes w =
  let r := storeUpdate (Namespace (ChiMeta chi)) (withPrefixes chi prefixes) w in
  mkRun r.1 r.2 [EvUpdate (Namespace (ChiMeta chi)) (withPrefixes chi prefixes) r.1].
Proof. done. Qed.

Lemma creates_no_update t :
  Forall (λ e, isCreate e = true) t →
  List.filter isUpdate t = [] ∧ List.filter isCreate t = t
  ∧ List.filter isEnqueue t = [] ∧ List.filter isLog t = [].
Proof.
  induction 1 as [|e t He _ (IH1 & IH2 & IH3 & IH4)]; [done|].
  destruct e; try discriminate. simpl. by rewrite IH1, IH2, IH3, IH4.
Qed.

(** ** Claims about the creation phase *)

(** C2 (as amended).  For a dependent object absent from the watch cache,
    when the Store's create call fails with an "already exists" error, the
    create helper of its kind returns that error to the creation phase; it
    does not turn it into success. *)
Theorem create_returns_already_exists chi o w e :
  IsAlreadyExists e = true →
  (absentFromCache KConfigMap chi o w → createFailsWith KConfigMap chi o w e →
   value (createConfigMap chi o w) = Some e)
  ∧ (absentFromCache KService chi o w → createFailsWith KService chi o w e →
     value (createService chi o w) = Some e)
  ∧ (absentFromCache KStatefulSet chi o w → createFailsWith KStatefulSet chi o w e →
     value (createStatefulSet chi o w) = Some e).
Proof.
  intros _.
  assert (∀ k, absentFromCache k chi o w → createFailsWith k chi o w e →
               value (createDependent chi (k, o) w) = Some e) as Hk.
  { intros k (err & Hget & Hnf) Hcreate.
    rewrite createDependent_outcome. unfold createOutcome, depKey.
    unfold lister_Get in Hget. cbn [value fst snd] in *.
    rewrite Hget, Hnf. exact Hcreate. }
  split; [|split]; intros Ha Hc.
  - exact (Hk KConfigMap Ha Hc).
  - exact (Hk KService Ha Hc).
  - exact (Hk KStatefulSet Ha Hc).
Qed.

(** C3.  A create helper whose lister returns an object returns success
    without calling the Store.  Hence, when a creation phase has completed
    and the watch cache has caught up with its writes, a second creation
    phase succeeds with the same prefixes, makes no call at all (in
    particular no create call) and changes nothing; over both passes every
    dependent name that the cache did not show at the start was stored by
    exactly one create call and is in the Store, and no object was stored
    under a name the cache already showed. *)
Theorem creation_phase_idempotent chi w :
  (value (createControlledResources chi w)).2 = None →
  let first := createControlledResources chi w in
  let w2 := cacheCatchUp (after first) in
  let second := createControlledResources chi w2 in
  (∀ o c w0,
     (value (configMapLister_Get (Namespace (ChiMeta chi)) (Name (Meta o)) w0) = inl c →
      createConfigMap chi o w0 = mkRun None w0 [])
     ∧ (value (serviceLister_Get (Namespace (ChiMeta chi)) (Name (Meta o)) w0) = inl c →
        createService chi o w0 = mkRun None w0 [])
     ∧ (value (statefulSetLister_Get (Namespace (ChiMeta chi)) (Name (Meta o)) w0) = inl c →
        createStatefulSet chi o w0 = mkRun None w0 []))
  ∧ second = mkRun ((CreateObjects chi).2, None) w2 []
  ∧ ∀ d, d ∈ dependents (CreateObjects chi).1 →
         match depCache w !! depKey chi d with
         | Some _ => count_stored (depKey chi d) (events first ++ events second) = 0
         | None =>
             count_stored (depKey chi d) (events first ++ events second) = 1
             ∧ is_Some (depStore (after second) !! depKey chi d)
         end.
Proof.
  intros Hok first w2 second.
  split.
  { intros o c w0. split; [|split]; intros Hget.
    - apply (createDependent_cached chi (KConfigMap, o) w0 c), Hget.
    - apply (createDependent_cached chi (KService, o) w0 c), Hget.
    - apply (createDependent_cached chi (KStatefulSet, o) w0 c), Hget. }
  set (deps := dependents (CreateObjects chi).1).
  assert (value (forEach (createDependent chi) deps w) = None) as Hloop.
  { revert Hok. rewrite createControlledResources_run. cbn [value]. fold deps.
    by destruct (value (forEach _ deps w)). }
  assert (after first = after (forEach (createDependent chi) deps w)
          ∧ events first = events (forEach (createDependent chi) deps w)) as [Haf Hev].
  { subst first. by rewrite createControlledResources_run. }
  pose proof (creation_frame chi deps w) as Hfr. cbn zeta in Hfr.
  rewrite <- Haf in Hfr. destruct Hfr as (_&_&Hcache&Hlerr&_).
  assert (second = mkRun ((CreateObjects chi).2, None) w2 []) as Hsecond.
  { subst second. rewrite createControlledResources_run. fold deps.
    rewrite creation_all_cached; [done|].
    intros d Hd.
    pose proof (creation_done chi deps w (depKey chi d) Hloop) as (He & _ & Hc).
    rewrite <- Haf in Hc.
    assert (depKey chi d ∈ depKey chi <$> deps) as Hin by by apply list_elem_of_fmap_2.
    split; [subst w2; simpl; rewrite Hlerr; by apply He|].
    subst w2. simpl. apply lookup_union_is_Some. rewrite Hcache.
    case_decide as Hk; [left; apply Hc|right].
    destruct (depCache w !! depKey chi d) eqn:Hlook; [done|]. by destruct Hk. }
  split; [done|].
  intros d Hd. rewrite Hsecond. cbn [events after]. rewrite app_nil_r, Hev.
  pose proof (creation_done chi deps w (depKey chi d) Hloop) as (_ & _ & Hc).
  rewrite <- Haf in Hc.
  assert (depKey chi d ∈ depKey chi <$> deps) as Hin by by apply list_elem_of_fmap_2.
  destruct (depCache w !! depKey chi d) eqn:Hlook.
  - rewrite decide_False in Hc; [done|]. by intros [_ ?].
  - rewrite decide_True in Hc by done. by destruct Hc as (? & _ & ?).
Qed.

(** C4.  After a creation phase that completes without error, the Status
    Updater is called with exactly the prefix list the manifest generator
    returned for the resource, in the same order, and when the Store
    accepts the update the stored status holds that list. *)
Theorem status_records_generated_prefixes key chi w :
  resolves key chi w →
  ObjectPrefixes (Status chi) = [] →
  (value (createControlledResources chi w)).2 = None →
  let prefixes := (CreateObjects chi).2 in
  let r := syncItem key w in
  let stored := (Namespace (ChiMeta chi), Name (ChiMeta chi)) in
  (value (createControlledResources chi w)).1 = prefixes
  ∧ List.filter isUpdate (events r)
    = [EvUpdate (Namespace (ChiMeta chi)) (withPrefixes chi prefixes) (value r)]
  ∧ ObjectPrefixes (Status (withPrefixes chi prefixes)) = prefixes
  ∧ (updateErrors w !! stored = None →
     value r = None
     ∧ chiStore (after r) !! stored = Some (withPrefixes chi prefixes)).
Proof.
  intros Hres Hempty Hok prefixes r stored. subst r.
  rewrite (syncItem_creation key chi w Hres Hempty).
  revert Hok. rewrite createControlledResources_run. cbn [value after events].
  pose proof (creation_events chi (dependents (CreateObjects chi).1) w) as Hev.
  pose proof (creation_frame chi (dependents (CreateObjects chi).1) w) as Hfr.
  cbn zeta in Hfr.
  destruct (forEach _ _ w) as [[e|] w1 t1]; cbn [value after events fst snd] in *;
    [done|intros _].
  rewrite updateChiStatus_run. cbn [value after events fst snd].
  destruct (creates_no_update t1 Hev) as (Hnu & _).
  split; [done|]. split.
  { rewrite List.filter_app, Hnu. simpl.
    by destruct (storeUpdate _ _ w1).1. }
  split; [done|]. intros Hacc.
  unfold storeUpdate. cbn [withPrefixes ChiMeta].
  destruct Hfr as (_&_&_&_&_&Hue&_). fold stored. rewrite Hue, Hacc.
  cbn [fst snd]. split; [done|]. simpl. apply lookup_insert_eq.
Qed.

(** C5.  When a create helper returns an error, the creation phase stops
    there: the objects after it are not handled (the only create calls are
    those for the objects up to the failing one, and the Store is as the
    handled objects left it), the error reaches the caller of [syncItem],
    the Status Updater is not called and the stored custom resources are
    unchanged.  An update call is made only when every generated object
    was handled without error, and then after all create calls. *)
Theorem creation_aborts_at_first_error key chi w :
  resolves key chi w →
  ObjectPrefixes (Status chi) = [] →
  let all := forEach (createDependent chi) (dependents (CreateObjects chi).1) w in
  let r := syncItem key w in
  (∀ pre d post e,
     dependents (CreateObjects chi).1 = pre ++ d :: post →
     let handled := forEach (createDependent chi) pre w in
     let failed := createDependent chi d (after handled) in
     value handled = None →
     value failed = Some e →
     createControlledResources chi w
     = mkRun ([], Some e) (after handled) (events handled ++ events failed)
     ∧ value r = Some e
     ∧ List.filter isCreate (events r) = events handled ++ events failed
     ∧ List.filter isUpdate (events r) = []
     ∧ chiStore (after r) = chiStore w)
  ∧ match value all with
    | Some _ => List.filter isUpdate (events r) = []
    | None =>
        ∃ err line,
          events r = events all
                     ++ [EvUpdate (Namespace (ChiMeta chi))
                           (withPrefixes chi (CreateObjects chi).2) err; line]
    end.
Proof.
  intros Hres Hempty all r. subst r.
  rewrite (syncItem_creation key chi w Hres Hempty).
  rewrite createControlledResources_run. fold all. cbn [value after events].
  pose proof (creation_events chi (dependents (CreateObjects chi).1) w) as Hev.
  pose proof (creation_frame chi (dependents (CreateObjects chi).1) w) as Hfr.
  cbn zeta in Hfr. fold all in Hev, Hfr.
  destruct (creates_no_update _ Hev) as (Hnu & Hc & _).
  split.
  - intros pre d post e Hdeps.
    set (handled := forEach (createDependent chi) pre w).
    set (failed := createDependent chi d (after handled)).
    intros Hpre Hfail.
    assert (all = mkRun (Some e) (after handled) (events handled ++ events failed)) as Hall.
    { subst all. rewrite Hdeps, forEach_app. fold handled. rewrite Hpre.
      cbn zeta. rewrite forEach_cons. fold failed. rewrite Hfail.
      cbn [value after events]. subst failed. by erewrite createDependent_error. }
    rewrite Hall in *. cbn [value after events fst snd] in *.
    split; [done|]. split; [done|].
    split; [by rewrite List.filter_app, Hc; simpl; rewrite app_nil_r|].
    split; [by rewrite List.filter_app, Hnu|].
    by destruct Hfr as (_&_&_&_&->&_).
  - destruct (value all) as [e|] eqn:Hv; cbn [fst snd value after events].
    + rewrite List.filter_app, Hnu. done.
    + rewrite updateChiStatus_run. cbn [value after events]. by do 2 eexists.
Qed.

(** ** The verification phase *)

(** The loop that fills [chHostnames] by index computes, position by
    position, [hostnameOf] of the recorded prefixes, and logs the
    StatefulSets it finds. *)
Lemma verifyPrefixes_run chi prefixes filled w :
  verifyPrefixes chi (length filled) prefixes
    (filled ++ replicate (length prefixes) EmptyString) w
  = mkRun (filled ++ (hostnameOf chi w <$> prefixes)) w (controlsLines chi w prefixes).
Proof.
  revert filled. induction prefixes as [|prefix rest IH]; intros filled; [done|].
  cbn [verifyPrefixes length replicate]. unfold bind at 1.
  assert (verifyPrefix chi (length filled) prefix
            (filled ++ EmptyString :: replicate (length rest) EmptyString) w
          = mkRun ((filled ++ [hostnameOf chi w prefix])
                     ++ replicate (length rest) EmptyString) w
              (controlsLines chi w [prefix])) as ->.
  { unfold verifyPrefix, hostnameOf, controlsLines, statefulSetLister_Get, lister_Get.
    run. cbn [flat_map]. rewrite <- app_assoc. cbn [app].
    destruct (cacheGet _ _ _ _) as [c|err]; run; [|done].
    f_equal. rewrite <- (Nat.add_0_r (length filled)). by rewrite insert_app_r. }
  cbn [value after events].
  replace (S (length filled)) with (length (filled ++ [hostnameOf chi w prefix]))
    by (rewrite length_app; simpl; lia).
  rewrite IH. cbn [value after events]. rewrite <- app_assoc.
  f_equal. unfold controlsLines. cbn [flat_map]. by rewrite app_nil_r.
Qed.

Lemma controlsLines_logs chi w l : Forall (λ e, isLog e = true) (controlsLines chi w l).
Proof.
  unfold controlsLines. induction l as [|p l IH]; [by constructor|].
  cbn [flat_map]. apply Forall_app. split; [|done].
  destruct (value _); by repeat constructor.
Qed.

Lemma logs_only t :
  Forall (λ e, isLog e = true) t →
  List.filter isLog t = t ∧ List.filter isCreate t = []
  ∧ List.filter isEnqueue t = [] ∧ List.filter isExporterCall t = [].
Proof.
  induction 1 as [|e t He _ (IH1 & IH2 & IH3 & IH4)]; [done|].
  destruct e; try discriminate; simpl; by rewrite IH1, IH2, IH3, IH4.
Qed.

(** [syncItem] in the verification phase. *)
Lemma syncItem_verification key chi w :
  resolves key chi w →
  ObjectPrefixes (Status chi) ≠ [] →
  syncItem key w =
  let chiName := Name (ChiMeta chi) in
  let chHostnames := hostnameOf chi w <$> ObjectPrefixes (Status chi) in
  let exist := bool_decide (exporter w !! chiName = Some chHostnames) in
  mkRun None
    (if exist then w else setExporter (<[chiName := chHostnames]> (exporter w)) w)
    (controlsLines chi w (ObjectPrefixes (Status chi))
     ++ EvControlledValuesExist chiName chHostnames exist
     :: (if exist then []
         else [logIncluding chi; EvUpdateControlledState chiName chHostnames])).
Proof.
  intros (namespace & name & Hkey & Hget) Hnonempty.
  unfold syncItem. rewrite Hkey. unfold chopLister_Get in *. run.
  cbn [value] in Hget. rewrite Hget.
  case_decide as Hlen; [by apply length_zero_iff_nil in Hlen|].
  run. pose proof (verifyPrefixes_run chi (ObjectPrefixes (Status chi)) [] w) as Hrun.
  cbn [length app] in Hrun. rewrite Hrun.
  cbn [app value after events].
  unfold metricsExporter_ControlledValuesExist. cbn [value after events].
  destruct (bool_decide _); run; [done|].
  unfold metricsExporter_UpdateControlledState. run. done.
Qed.

(** ** Claims about the verification phase *)

(** C6 (as amended).  For a key whose custom resource has a non-empty
    [status.objectPrefixes] the sync runs the verification phase: it makes
    no create call and leaves the Store as it is, and it returns success.
    Only the StatefulSets that are found are logged; a recorded prefix
    whose StatefulSet is missing from the watch cache adds no log line and
    is not re-created. *)
Theorem verification_never_creates key chi w :
  resolves key chi w →
  ObjectPrefixes (Status chi) ≠ [] →
  let r := syncItem key w in
  let prefixes := ObjectPrefixes (Status chi) in
  value r = None
  ∧ List.filter isCreate (events r) = []
  ∧ depStore (after r) = depStore w
  ∧ (∃ line, List.filter isLog (events r) = controlsLines chi w prefixes ++ line
             ∧ (line = [] ∨ line = [logIncluding chi]))
  ∧ ∀ prefix err,
      value (statefulSetLister_Get (Namespace (ChiMeta chi))
               (CreateStatefulSetName prefix) w) = inr err →
      controlsLines chi w [prefix] = [].
Proof.
  intros Hres Hne r prefixes. subst r prefixes.
  rewrite (syncItem_verification key chi w Hres Hne). cbn zeta. cbn [value after events].
  destruct (logs_only _ (controlsLines_logs chi w (ObjectPrefixes (Status chi))))
    as (Hl & Hc & _).
  split; [done|].
  split; [rewrite List.filter_app, Hc; by destruct (bool_decide _)|].
  split; [by destruct (bool_decide _)|].
  split.
  - rewrite List.filter_app, Hl.
    destruct (bool_decide _); simpl; eexists; (split; [done|]); auto.
  - intros prefix err Hget. unfold controlsLines. cbn [flat_map]. by rewrite Hget.
Qed.

(** C10.  In every verification phase the identity list handed to the
    metrics exporter has one entry per recorded prefix, in order: the pod
    hostname of a prefix whose StatefulSet lookup succeeds and the empty
    string, at its position, for a prefix whose lookup fails.  That list is
    the one [ControlledValuesExist] is asked about and, when the answer is
    no, the one [UpdateControlledState] is given. *)
Theorem verification_identity_list key chi w :
  resolves key chi w →
  ObjectPrefixes (Status chi) ≠ [] →
  let r := syncItem key w in
  let prefixes := ObjectPrefixes (Status chi) in
  let chiName := Name (ChiMeta chi) in
  ∃ chHostnames exist,
    length chHostnames = length prefixes
    ∧ (∀ i prefix,
         prefixes !! i = Some prefix →
         chHostnames !! i
         = Some match value (statefulSetLister_Get (Namespace (ChiMeta chi))
                               (CreateStatefulSetName prefix) w) with
                | inl _ => CreatePodHostname (Namespace (ChiMeta chi)) prefix
                | inr _ => EmptyString
                end)
    ∧ List.filter isExporterCall (events r)
      = EvControlledValuesExist chiName chHostnames exist
        :: (if exist then [] else [EvUpdateControlledState chiName chHostnames])
    ∧ exist = bool_decide (exporter w !! chiName = Some chHostnames)
    ∧ exporter (after r) !! chiName = Some chHostnames.
Proof.
  intros Hres Hne r prefixes chiName. subst r.
  rewrite (syncItem_verification key chi w Hres Hne). cbn zeta. cbn [value after events].
  fold prefixes chiName.
  exists (hostnameOf chi w <$> prefixes),
    (bool_decide (exporter w !! chiName = Some (hostnameOf chi w <$> prefixes))).
  split; [by rewrite length_fmap|]. split.
  { intros i prefix Hi. by rewrite list_lookup_fmap, Hi. }
  destruct (logs_only _ (controlsLines_logs chi w prefixes)) as (_ & _ & _ & Hnone).
  rewrite List.filter_app, Hnone. split; [by destruct (bool_decide _)|].
  split; [done|].
  destruct (bool_decide _) eqn:Hex.
  - by apply bool_decide_eq_true in Hex.
  - simpl. apply lookup_insert_eq.
Qed.

(** ** The worker *)

(** The reconcile engine never touches the work queue. *)
Lemma syncItem_queue key w :
  queue (after (syncItem key w)) = queue w
  ∧ List.filter isEnqueue (events (syncItem key w)) = [].
Proof.
  destruct (SplitMetaNamespaceKey key) as [[namespace name] [e|]] eqn:Hkey.
  { unfold syncItem. rewrite Hkey. by run. }
  destruct (value (chopLister_Get namespace name w)) as [chi|err] eqn:Hget.
  - assert (resolves key chi w) as Hres by (by exists namespace, name).
    destruct (ObjectPrefixes (Status chi)) as [|p ps] eqn:Hst.
    + rewrite (syncItem_creation key chi w Hres Hst).
      rewrite createControlledResources_run. cbn zeta. cbn [value after events].
      pose proof (creation_events chi (dependents (CreateObjects chi).1) w) as Hev.
      pose proof (creation_frame chi (dependents (CreateObjects chi).1) w) as Hfr.
      cbn zeta in Hfr. destruct Hfr as (_&_&_&_&_&_&_&Hq&_).
      destruct (creates_no_update _ Hev) as (_&_&Hne&_).
      destruct (value (forEach _ _ w)); cbn [fst snd value after events].
      * by rewrite List.filter_app, Hne.
      * rewrite updateChiStatus_run. cbn [value after events].
        rewrite List.filter_app, Hne. split; [|by destruct (storeUpdate _ _ _).1].
        unfold storeUpdate. by destruct (updateErrors _ !! _).
    + assert (ObjectPrefixes (Status chi) ≠ []) as Hne by (by rewrite Hst).
      rewrite (syncItem_verification key chi w Hres Hne). cbn zeta.
      cbn [value after events]. rewrite List.filter_app.
      destruct (logs_only _ (controlsLines_logs chi w (ObjectPrefixes (Status chi))))
        as (_ & _ & -> & _).
      by destruct (bool_decide _).
  - unfold syncItem. rewrite Hkey. unfold chopLister_Get in *. run.
    cbn [value] in Hget. rewrite Hget. by destruct (IsNotFound err).
Qed.

(** One pass of the worker over a string item. *)
Lemma processNextWorkItem_string w key q :
  wq.Get (queue w) = GetItem (ItemString key) q →
  let i := ItemString key in
  let s := syncItem key (setQueue q w) in
  processNextWorkItem w =
  Some match value s with
       | Some e =>
           mkRun true (setQueue (wq.Done i (queue (after s))) (after s))
             (EvGet i :: events s ++ [EvDone i; EvHandleError (errUnableToSync key e)])
       | None =>
           mkRun true
             (setQueue (wq.Done i (wq.Forget i (queue (after s)))) (after s))
             (EvGet i :: events s ++ [EvForget i; EvDone i])
       end.
Proof.
  intros Hget i s. unfold processNextWorkItem. rewrite Hget. f_equal.
  run. fold s. destruct s as [[e|] ws ts]; run.
  - unfold queue_Done. run. rewrite !app_nil_r, <- app_assoc. reflexivity.
  - unfold queue_Forget, queue_Done. run. rewrite !app_nil_r, <- app_assoc.
    reflexivity.
Qed.

(** A failed sync leaves the worker without any call that would put the
    key back: the pass ends with [Done] and the error is only logged. *)
Lemma failed_sync_not_requeued w key q e :
  wq.Get (queue w) = GetItem (ItemString key) q →
  value (syncItem key (setQueue q w)) = Some e →
  ∃ r, processNextWorkItem w = Some r
       ∧ value r = true
       ∧ List.filter isEnqueue (events r) = []
       ∧ queue (after r) = wq.Done (ItemString key) q.
Proof.
  intros Hget Hsync. rewrite (processNextWorkItem_string w key q Hget). cbn zeta.
  rewrite Hsync. eexists. split; [done|]. cbn [value after events].
  destruct (syncItem_queue key (setQueue q w)) as [Hq Hne].
  split; [done|]. split; [|by rewrite Hq].
  cbn [List.filter isEnqueue]. by rewrite List.filter_app, Hne.
Qed.

Lemma Get_not_dirty q i q' :
  wq.Get q = GetItem i q' →
  pending q = i :: pending q' ∧ (i ∉ dirty q') ∧ waiting q' = waiting q
  ∧ failures q' = failures q.
Proof.
  unfold wq.Get. destruct (pending q) as [|j rest]; [by destruct (shuttingDown q)|].
  intros [= -> <-]. simpl. repeat split; try done.
  intros [_ Hn]%elem_of_difference. apply Hn. by apply elem_of_singleton.
Qed.

(** X16.  For a well-formed key at the head of the queue whose custom
    resource the watch cache no longer shows, [syncItem] returns success
    and the pass of the worker ends with [Forget] and [Done]: the requeue
    count of the key is cleared and nothing is added to the queue.  A
    lookup that fails with any other error makes [syncItem] return that
    error; the worker then calls [Done], logs the error and makes no
    [Forget] call. *)
Theorem gone_resource_is_forgotten key namespace name w q err :
  SplitMetaNamespaceKey key = (namespace, name, None) →
  wq.Get (queue w) = GetItem (ItemString key) q →
  value (chopLister_Get namespace name w) = inr err →
  let i := ItemString key in
  ∃ r, processNextWorkItem w = Some r ∧ value r = true ∧
    if IsNotFound err then
      syncItem key (setQueue q w)
      = mkRun None (setQueue q w) [EvHandleError (errNoLongerExists key)]
      ∧ events r = [EvGet i; EvHandleError (errNoLongerExists key); EvForget i; EvDone i]
      ∧ wq.NumRequeues i (queue (after r)) = 0
      ∧ pending (queue (after r)) = pending q
      ∧ waiting (queue (after r)) = waiting q
      ∧ dirty (queue (after r)) = dirty q
    else
      syncItem key (setQueue q w) = mkRun (Some err) (setQueue q w) []
      ∧ events r = [EvGet i; EvDone i; EvHandleError (errUnableToSync key err)].
Proof.
  intros Hkey Hget Hlook i.
  rewrite (processNextWorkItem_string w key q Hget). cbn zeta.
  assert (syncItem key (setQueue q w)
          = if IsNotFound err
            then mkRun None (setQueue q w) [EvHandleError (errNoLongerExists key)]
            else mkRun (Some err) (setQueue q w) []) as ->.
  { unfold syncItem. rewrite Hkey. unfold chopLister_Get in *. run.
    cbn [value] in Hlook. change (chiLookupErrors (setQueue q w)) with (chiLookupErrors w).
    change (chiCache (setQueue q w)) with (chiCache w). rewrite Hlook.
    by destruct (IsNotFound err). }
  eexists. split; [done|].
  destruct (IsNotFound err); cbn [value after events app]; (split; [done|]);
    [|by split].
  split; [done|]. split; [done|].
  destruct (Get_not_dirty _ _ _ Hget) as (_ & Hnd & _).
  unfold wq.NumRequeues, wq.Done, wq.Forget. simpl.
  rewrite lookup_delete_eq. split; [done|]. by rewrite decide_False.
Qed.

(** ** The event router *)

Lemma handleObject_route obj object w :
  eventObject obj = Some object → handleObject obj w = routeObject object w.
Proof.
  unfold handleObject, eventObject.
  destruct obj as [chi|k o|key tsObj|n]; simpl; try by intros [= ->].
Qed.

Lemma AddRateLimited_scheduled i q :
  shuttingDown q = false → wq.scheduled i (wq.AddRateLimited i q).
Proof.
  intros Hsd. unfold wq.AddRateLimited, wq.AddAfter. simpl. rewrite Hsd.
  case_decide as Hd.
  - unfold wq.Add. simpl.
    case_decide; [by right; left|]. right; left. simpl.
    apply elem_of_union. left. by apply elem_of_singleton.
  - right; right. simpl. rewrite fmap_app. apply elem_of_app. right.
    by apply list_elem_of_singleton.
Qed.

(** C8.  A dependent-object event, live or tombstone, whose object has no
    controller owner reference, or whose controller owner reference is not
    of the ClickHouseInstallation kind, enqueues nothing: the router makes
    no call and leaves the queue as it is.  The same holds for the update
    handler of the StatefulSet informer. *)
Theorem orphan_events_enqueue_nothing obj object w :
  eventObject obj = Some object →
  (GetControllerOf object = None
   ∨ ∃ ownerRef, GetControllerOf object = Some ownerRef
                 ∧ OwnerKind ownerRef ≠ ClickHouseInstallationCRDResourceKind) →
  handleObject obj w = mkRun tt w []
  ∧ List.filter isEnqueue (events (handleObject obj w)) = []
  ∧ queue (after (handleObject obj w)) = queue w
  ∧ ∀ k old new, obj = AnyObject k new →
                 List.filter isEnqueue (events (ssInformer_UpdateFunc old new w)) = []
                 ∧ queue (after (ssInformer_UpdateFunc old new w)) = queue w.
Proof.
  intros Hobj Howner.
  assert (routeObject object w = mkRun tt w []) as Hroute.
  { unfold routeObject. destruct Howner as [->|(ownerRef & -> & Hkind)]; [done|].
    apply String.eqb_neq in Hkind. by rewrite Hkind. }
  assert (handleObject obj w = mkRun tt w []) as Hh
      by (by rewrite (handleObject_route obj object w Hobj)).
  rewrite Hh. split; [done|]. split; [done|]. split; [done|].
  intros k old new ->. unfold ssInformer_UpdateFunc.
  destruct (String.eqb _ _); [done|].
  simpl in Hobj. injection Hobj as <-.
  rewrite (handleObject_route (AnyObject KStatefulSet new) (Meta new) w eq_refl).
  by rewrite Hroute.
Qed.

(** C9.  A delete event delivered as a tombstone is routed exactly as the
    delete event of the object it wraps.  When that object has a controller
    owner reference of the ClickHouseInstallation kind and the reference
    resolves to a custom resource in the watch cache (a valid reference),
    the router enqueues the key of that custom resource. *)
Theorem tombstone_routed_like_delete key tsObj object ownerRef chi w :
  asMetaObject tsObj = Some object →
  GetControllerOf object = Some ownerRef →
  OwnerKind ownerRef = ClickHouseInstallationCRDResourceKind →
  value (chopLister_Get (Namespace object) (OwnerName ownerRef) w) = inl chi →
  let ts := AnyDeletedFinalStateUnknown key tsObj in
  let r := ssInformer_DeleteFunc ts w in
  r = ssInformer_DeleteFunc tsObj w
  ∧ List.filter isEnqueue (events r) = [EvAddRateLimited (ItemString (ownerKey chi))]
  ∧ queue (after r) = wq.AddRateLimited (ItemString (ownerKey chi)) (queue w)
  ∧ (shuttingDown (queue w) = false →
     wq.scheduled (ItemString (ownerKey chi)) (queue (after r))).
Proof.
  intros Hobj Howner Hkind Hget ts r. subst r ts. unfold ssInformer_DeleteFunc.
  assert (eventObject tsObj = Some object) as Hlive.
  { destruct tsObj; simpl in *; try done. }
  rewrite (handleObject_route (AnyDeletedFinalStateUnknown key tsObj) object w Hobj).
  rewrite (handleObject_route tsObj object w Hlive).
  split; [done|].
  unfold routeObject. rewrite Howner, Hkind, String.eqb_refl. run.
  unfold chopLister_Get in *. cbn [value after events] in *. rewrite Hget.
  unfold enqueueObject, ownerKey, MetaNamespaceKeyFunc. simpl.
  case_decide; simpl; (split; [done|]); (split; [done|]);
    apply AddRateLimited_scheduled.
Qed.

End Properties.

(** * Further properties of the controller *)

Section Coverage.

Context `{Parser}.

(** ** Keys *)

Lemma split_on_length s : length (split_on slash s) = S (slashes s).
Proof.
  induction s as [|c s IH]; [done|]. simpl.
  destruct (Ascii.eqb c slash); simpl; [by rewrite IH|].
  destruct (split_on slash s); simpl in *; lia.
Qed.

Lemma split_on_no_slash s : slashes s = 0 → split_on slash s = [s].
Proof.
  induction s as [|c s IH]; [done|]. simpl.
  destruct (Ascii.eqb c slash); [done|]. simpl. intros Hs. by rewrite IH.
Qed.

Lemma split_on_append s1 s2 :
  slashes s1 = 0 → split_on slash (s1 +:+ String slash s2) = s1 :: split_on slash s2.
Proof.
  induction s1 as [|c s1 IH]; simpl.
  - by intros _.
  - destruct (Ascii.eqb c slash); [done|]. simpl. intros Hs. by rewrite IH.
Qed.

(** X1.  A key with two or more slashes is not a key: [syncItem] reports it
    and returns success without looking anything up, and the worker's pass
    over it is [Get], the report, [Forget] and [Done], so the key is dropped
    and never retried. *)
Theorem malformed_key_is_dropped key w :
  2 ≤ slashes key →
  syncItem key w
  = mkRun None w [EvHandleError (Errorf ("incorrect resource key: " +:+ key))]
  ∧ ∀ q, wq.Get (queue w) = GetItem (ItemString key) q →
         processNextWorkItem w
         = Some (mkRun true
                   (setQueue (wq.Done (ItemString key) (wq.Forget (ItemString key) q)) w)
                   [EvGet (ItemString key);
                    EvHandleError (Errorf ("incorrect resource key: " +:+ key));
                    EvForget (ItemString key); EvDone (ItemString key)]).
Proof.
  intros Hs.
  assert (syncItem key w
          = mkRun None w [EvHandleError (Errorf ("incorrect resource key: " +:+ key))])
    as Hsync.
  { unfold syncItem, SplitMetaNamespaceKey.
    pose proof (split_on_length key) as Hlen.
    destruct (split_on slash key) as [|a [|b [|c l]]]; simpl in Hlen; try lia; by run. }
  split; [exact Hsync|]. intros q Hget.
  rewrite (processNextWorkItem_string w key q Hget). cbn zeta.
  assert (syncItem key (setQueue q w)
          = mkRun None (setQueue q w)
              [EvHandleError (Errorf ("incorrect resource key: " +:+ key))]) as ->.
  { unfold syncItem, SplitMetaNamespaceKey.
    pose proof (split_on_length key) as Hlen.
    destruct (split_on slash key) as [|a [|b [|c l]]]; simpl in Hlen; try lia; by run. }
  reflexivity.
Qed.

(** X2.  The key [enqueueObject] makes for a custom resource is the key
    [syncItem] takes apart: when neither the namespace nor the name holds a
    slash, the router enqueues exactly one key and splitting it gives back
    the namespace and the name, so a resource the watch cache shows under
    its own namespace and name is the one the sync resolves. *)
Theorem enqueued_key_resolves chi w :
  slashes (Namespace (ChiMeta chi)) = 0 →
  slashes (Name (ChiMeta chi)) = 0 →
  events (enqueueObject (AnyChi chi) w) = [EvAddRateLimited (ItemString (ownerKey chi))]
  ∧ SplitMetaNamespaceKey (ownerKey chi)
    = (Namespace (ChiMeta chi), Name (ChiMeta chi), None)
  ∧ (chiLookupErrors w !! (Namespace (ChiMeta chi), Name (ChiMeta chi)) = None →
     chiCache w !! (Namespace (ChiMeta chi), Name (ChiMeta chi)) = Some chi →
     resolves (ownerKey chi) chi w).
Proof.
  intros Hns Hname.
  assert (SplitMetaNamespaceKey (ownerKey chi)
          = (Namespace (ChiMeta chi), Name (ChiMeta chi), None)) as Hsplit.
  { unfold SplitMetaNamespaceKey, ownerKey, MetaNamespaceKeyFunc. simpl.
    case_decide as Hempty; simpl.
    - rewrite split_on_no_slash by done. by rewrite Hempty.
    - change (String slash EmptyString +:+ Name (ChiMeta chi))
        with (String slash (Name (ChiMeta chi))).
      rewrite split_on_append by done. by rewrite split_on_no_slash. }
  split; [|split; [exact Hsplit|]].
  - unfold enqueueObject, ownerKey, MetaNamespaceKeyFunc. simpl. by case_decide.
  - intros Herr Hcache. eexists _, _. split; [exact Hsplit|].
    unfold chopLister_Get, cacheGet. cbn [value]. by rewrite Herr, Hcache.
Qed.

(** ** The worker *)

Lemma filter_none {A} (f : A → bool) (P : A → Prop) t :
  Forall P t → (∀ e, P e → f e = false) → List.filter f t = [].
Proof.
  intros Ht Hf. induction Ht as [|e t He _ IH]; [done|].
  simpl. by rewrite (Hf e He).
Qed.

(** The reconcile engine makes no queue call. *)
Lemma syncItem_quiet key w :
  Forall (λ e, isQueueCall e = false) (events (syncItem key w)).
Proof.
  destruct (SplitMetaNamespaceKey key) as [[namespace name] [e|]] eqn:Hkey.
  { unfold syncItem. rewrite Hkey. run. by repeat constructor. }
  destruct (value (chopLister_Get namespace name w)) as [chi|err] eqn:Hget.
  - assert (resolves key chi w) as Hres by (by exists namespace, name).
    destruct (ObjectPrefixes (Status chi)) as [|p ps] eqn:Hst.
    + rewrite (syncItem_creation key chi w Hres Hst).
      rewrite createControlledResources_run. cbn zeta. cbn [value after events].
      pose proof (creation_events chi (dependents (CreateObjects chi).1) w) as Hev.
      assert (Forall (λ e, isQueueCall e = false)
                (events (forEach (createDependent chi)
                           (dependents (CreateObjects chi).1) w))) as Hq.
      { eapply Forall_impl; [exact Hev|]. by intros []. }
      destruct (value (forEach _ _ w)); cbn [fst snd value after events].
      * apply Forall_app. split; [done|]. by repeat constructor.
      * rewrite updateChiStatus_run. cbn [value after events].
        apply Forall_app. split; [done|].
        destruct (storeUpdate _ _ _).1; by repeat constructor.
    + assert (ObjectPrefixes (Status chi) ≠ []) as Hne by (by rewrite Hst).
      rewrite (syncItem_verification key chi w Hres Hne). cbn zeta.
      cbn [value after events]. apply Forall_app. split.
      * eapply Forall_impl; [apply controlsLines_logs|]. by intros [].
      * destruct (bool_decide _); by repeat constructor.
  - unfold syncItem. rewrite Hkey. unfold chopLister_Get in *. run.
    cbn [value] in Hget. rewrite Hget.
    destruct (IsNotFound err); run; by repeat constructor.
Qed.

(** One pass of the worker over an item that is not a string. *)
Lemma processNextWorkItem_other w n q :
  wq.Get (queue w) = GetItem (ItemOther n) q →
  processNextWorkItem w
  = Some (mkRun true
            (setQueue (wq.Done (ItemOther n) (wq.Forget (ItemOther n) q)) w)
            [EvGet (ItemOther n); EvForget (ItemOther n);
             EvHandleError (Errorf "unexpected item in the queue");
             EvDone (ItemOther n)]).
Proof.
  intros Hget. unfold processNextWorkItem. rewrite Hget. f_equal.
Qed.

(** What every pass does to the queue: it starts with [Get], calls [Done]
    once, enqueues nothing, and hands the queue back without the item. *)
Lemma pass_summary w i q :
  wq.Get (queue w) = GetItem i q →
  ∃ r, processNextWorkItem w = Some r
       ∧ value r = true
       ∧ List.filter isGet (events r) = [EvGet i]
       ∧ List.filter isDone (events r) = [EvDone i]
       ∧ List.filter isEnqueue (events r) = []
       ∧ pending (queue (after r)) = pending q
       ∧ dirty (queue (after r)) = dirty q
       ∧ waiting (queue (after r)) = waiting q
       ∧ processing (queue (after r)) = processing q ∖ {[i]}
       ∧ shuttingDown (queue (after r)) = shuttingDown q.
Proof.
  intros Hget. destruct (Get_not_dirty _ _ _ Hget) as (_ & Hnd & _).
  destruct i as [key|n].
  - rewrite (processNextWorkItem_string w key q Hget). cbn zeta.
    destruct (syncItem_queue key (setQueue q w)) as [Hq _].
    pose proof (syncItem_quiet key (setQueue q w)) as Hquiet.
    assert (List.filter isGet (events (syncItem key (setQueue q w))) = []) as Hg
        by (eapply filter_none; [exact Hquiet|by intros []]).
    assert (List.filter isDone (events (syncItem key (setQueue q w))) = []) as Hd
        by (eapply filter_none; [exact Hquiet|by intros []]).
    assert (List.filter isEnqueue (events (syncItem key (setQueue q w))) = []) as He
        by (eapply filter_none; [exact Hquiet|by intros []]).
    destruct (value (syncItem key (setQueue q w))); eexists; (split; [done|]);
      cbn [value after events List.filter isGet isDone isEnqueue];
      rewrite !List.filter_app, Hg, Hd, He, Hq; simpl;
      rewrite decide_False by done; done.
  - rewrite (processNextWorkItem_other w n q Hget). eexists. split; [done|].
    simpl. rewrite decide_False by done. done.
Qed.

(** X3.  An item of the queue that is not a string is never synced: the pass
    over it is [Get], [Forget], one report and [Done]; it touches nothing but
    the queue and the worker goes on. *)
Theorem foreign_item_is_discarded w n q :
  wq.Get (queue w) = GetItem (ItemOther n) q →
  ∃ r, processNextWorkItem w = Some r
       ∧ value r = true
       ∧ events r = [EvGet (ItemOther n); EvForget (ItemOther n);
                     EvHandleError (Errorf "unexpected item in the queue");
                     EvDone (ItemOther n)]
       ∧ after r = setQueue (queue (after r)) w
       ∧ wq.NumRequeues (ItemOther n) (queue (after r)) = 0
       ∧ pending (queue (after r)) = pending q
       ∧ waiting (queue (after r)) = waiting q.
Proof.
  intros Hget. rewrite (processNextWorkItem_other w n q Hget).
  eexists. split; [done|]. cbn [value after events].
  split; [done|]. split; [done|]. split; [done|]. split.
  { unfold wq.NumRequeues, wq.Done, wq.Forget. simpl. by rewrite lookup_delete_eq. }
  destruct (Get_not_dirty _ _ _ Hget) as (_ & Hnd & _).
  unfold wq.Done, wq.Forget. simpl. by rewrite decide_False by done.
Qed.

(** X4.  Every pass that gets an item releases it exactly once: the pass
    begins with the [Get], contains exactly one [Done], for that item, and no
    enqueue call; afterwards the item is not marked as being processed, and
    the pending, dirty and waiting parts of the queue are as [Get] left
    them. *)
Theorem pass_releases_item w i q :
  wq.Get (queue w) = GetItem i q →
  ∃ r, processNextWorkItem w = Some r
       ∧ value r = true
       ∧ List.filter isGet (events r) = [EvGet i]
       ∧ List.filter isDone (events r) = [EvDone i]
       ∧ List.filter isEnqueue (events r) = []
       ∧ (i ∉ processing (queue (after r)))
       ∧ pending (queue w) = i :: pending (queue (after r))
       ∧ dirty (queue (after r)) = dirty q
       ∧ waiting (queue (after r)) = waiting (queue w).
Proof.
  intros Hget.
  destruct (pass_summary w i q Hget) as (r & Hr & Hv & Hg & Hd & He & Hp & Hdi & Hw & Hpr & _).
  destruct (Get_not_dirty _ _ _ Hget) as (Hpq & _ & Hwq & _).
  exists r. repeat (split; [done|]).
  split; [|split; [by rewrite Hp|split; [done|by rewrite Hw]]].
  rewrite Hpr. intros [_ Hn]%elem_of_difference. apply Hn. by apply elem_of_singleton.
Qed.

(** X5.  The worker calls [Forget] exactly when the sync of a key returns
    success: then the requeue count of the key is cleared; when the sync
    returns an error the pass makes no [Forget] call and the requeue count
    stays as it was. *)
Theorem forget_follows_success w key q :
  wq.Get (queue w) = GetItem (ItemString key) q →
  ∃ r, processNextWorkItem w = Some r ∧
       match value (syncItem key (setQueue q w)) with
       | None =>
           List.filter isForget (events r) = [EvForget (ItemString key)]
           ∧ wq.NumRequeues (ItemString key) (queue (after r)) = 0
       | Some e =>
           List.filter isForget (events r) = []
           ∧ last (events r) = Some (EvHandleError (errUnableToSync key e))
           ∧ wq.NumRequeues (ItemString key) (queue (after r))
             = wq.NumRequeues (ItemString key) (queue w)
       end.
Proof.
  intros Hget. rewrite (processNextWorkItem_string w key q Hget). cbn zeta.
  destruct (syncItem_queue key (setQueue q w)) as [Hq _].
  pose proof (syncItem_quiet key (setQueue q w)) as Hquiet.
  assert (List.filter isForget (events (syncItem key (setQueue q w))) = []) as Hf
      by (eapply filter_none; [exact Hquiet|by intros []]).
  destruct (Get_not_dirty _ _ _ Hget) as (_ & _ & _ & Hfail).
  destruct (value (syncItem key (setQueue q w))) as [e|]; eexists; (split; [done|]);
    cbn [value after events List.filter isForget]; rewrite List.filter_app, Hf, Hq.
  - split; [done|]. split.
    + change [EvDone (ItemString key); EvHandleError (errUnableToSync key e)]
        with ([EvDone (ItemString key)] ++ [EvHandleError (errUnableToSync key e)]).
      rewrite app_comm_cons, app_assoc. apply last_snoc.
    + unfold wq.NumRequeues, wq.Done. simpl. by rewrite Hfail.
  - split; [done|]. unfold wq.NumRequeues, wq.Done, wq.Forget. simpl.
    by rewrite lookup_delete_eq.
Qed.

(** X6.  The worker loop drains the queue: followed for more passes than
    there are pending items, it takes every pending item once, in order,
    releases each one, enqueues nothing, and ends with nothing pending,
    returning when the queue is shut down and waiting in [Get] otherwise. *)
Theorem runWorker_drains fuel w :
  length (pending (queue w)) < fuel →
  let r := runWorker fuel w in
  value r = (if shuttingDown (queue w) then WorkerStopped else WorkerBlocked)
  ∧ pending (queue (after r)) = []
  ∧ List.filter isGet (events r) = EvGet <$> pending (queue w)
  ∧ List.filter isDone (events r) = EvDone <$> pending (queue w)
  ∧ List.filter isEnqueue (events r) = [].
Proof.
  revert w. induction fuel as [|fuel IH]; intros w Hlen; [lia|].
  cbn zeta. cbn [runWorker].
  destruct (pending (queue w)) as [|i rest] eqn:Hpw.
  - assert (processNextWorkItem w
            = if shuttingDown (queue w) then Some (mkRun false w []) else None) as ->.
    { unfold processNextWorkItem, wq.Get. rewrite Hpw. by destruct (shuttingDown _). }
    destruct (shuttingDown (queue w)); cbn [value after events]; by rewrite Hpw.
  - assert (wq.Get (queue w)
            = GetItem i (mkWorkQueue rest (dirty (queue w) ∖ {[i]})
                           ({[i]} ∪ processing (queue w)) (waiting (queue w))
                           (failures (queue w)) (baseDelay (queue w))
                           (shuttingDown (queue w)))) as Hget
        by (unfold wq.Get; by rewrite Hpw).
    destruct (pass_summary w i _ Hget)
      as (r & Hr & Hv & Hg & Hd & He & Hp & _ & _ & _ & Hsd).
    rewrite Hr, Hv. cbn [pending shuttingDown] in Hp, Hsd.
    simpl in Hlen.
    specialize (IH (after r)). rewrite Hp in IH.
    destruct IH as (IHv & IHp & IHg & IHd & IHe); [lia|].
    cbn [value after events]. rewrite !List.filter_app, Hg, Hd, He, IHg, IHd, IHe.
    rewrite IHv, Hsd. done.
Qed.

(** ** The event router *)

Lemma handleObject_undecodable obj w :
  eventObject obj = None →
  handleObject obj w = mkRun tt w [EvHandleError (Errorf messageUnableToDecode)].
Proof.
  unfold handleObject, eventObject.
  destruct obj as [chi|k o|key tsObj|n]; simpl; try done. by intros ->.
Qed.

Lemma enqueueObject_chi chi w :
  enqueueObject (AnyChi chi) w
  = mkRun tt (setQueue (wq.AddRateLimited (ItemString (ownerKey chi)) (queue w)) w)
      [EvAddRateLimited (ItemString (ownerKey chi))].
Proof.
  unfold enqueueObject, ownerKey, MetaNamespaceKeyFunc. simpl. by case_decide.
Qed.

(** X7.  The router enqueues at most one key per dependent-object event, and
    only the key of the custom resource the event is routed to: exactly that
    key when the event decodes, its object has a controller owner reference
    of the ClickHouseInstallation kind and the owner is found in the watch
    cache, and nothing in every other case.  It changes nothing but the
    queue. *)
Theorem router_enqueues_only_the_owner obj w :
  let r := handleObject obj w in
  after r = setQueue (queue (after r)) w
  ∧ match routedOwner obj w with
    | Some chi =>
        List.filter isEnqueue (events r) = [EvAddRateLimited (ItemString (ownerKey chi))]
        ∧ queue (after r) = wq.AddRateLimited (ItemString (ownerKey chi)) (queue w)
    | None => List.filter isEnqueue (events r) = [] ∧ queue (after r) = queue w
    end.
Proof.
  cbn zeta. unfold routedOwner.
  destruct (eventObject obj) as [object|] eqn:Hobj.
  2:{ rewrite (handleObject_undecodable obj w Hobj). by destruct w. }
  rewrite (handleObject_route obj object w Hobj). unfold routeObject.
  destruct (GetControllerOf object) as [ownerRef|]; [|by destruct w].
  destruct (String.eqb _ _); cbn [negb]; [|by destruct w].
  run. unfold chopLister_Get. cbn [value after events].
  destruct (cacheGet _ _ _ _) as [chi|err]; [|by destruct w].
  rewrite enqueueObject_chi. cbn [value after events]. by destruct w.
Qed.

(** X8.  An object whose controller owner reference has the expected kind
    but whose owner the lister does not find (the owner is gone, or the
    lookup fails) is ignored as orphaned: the router logs that it processes
    the object and that it ignores it, and enqueues nothing. *)
Theorem unresolved_owner_is_ignored obj object ownerRef err w :
  eventObject obj = Some object →
  GetControllerOf object = Some ownerRef →
  OwnerKind ownerRef = ClickHouseInstallationCRDResourceKind →
  value (chopLister_Get (Namespace object) (OwnerName ownerRef) w) = inr err →
  handleObject obj w
  = mkRun tt w
      [EvInfo 2 ("Processing object: " +:+ Name object);
       EvInfo 2 ("ignoring orphaned object '" +:+ SelfLink object
                 +:+ "' of ClickHouseInstallation '" +:+ OwnerName ownerRef +:+ "'")].
Proof.
  intros Hobj Howner Hkind Hget.
  rewrite (handleObject_route obj object w Hobj). unfold routeObject.
  rewrite Howner, Hkind, String.eqb_refl. run.
  unfold chopLister_Get in *. cbn [value after events] in *. by rewrite Hget.
Qed.

(** X9.  An update event of a StatefulSet whose resource version did not
    change (a resync) is dropped before any routing, whatever the object
    owns; with a changed resource version it is routed exactly as an add
    event of the new object.  The old object plays no other part. *)
Theorem statefulset_resync_is_suppressed old new w :
  (ResourceVersion (Meta new) = ResourceVersion (Meta old) →
   ssInformer_UpdateFunc old new w = mkRun tt w [])
  ∧ (ResourceVersion (Meta new) ≠ ResourceVersion (Meta old) →
     ssInformer_UpdateFunc old new w = ssInformer_AddFunc (AnyObject KStatefulSet new) w).
Proof.
  unfold ssInformer_UpdateFunc, ssInformer_AddFunc. split.
  - intros ->. by rewrite String.eqb_refl.
  - intros Hne. apply String.eqb_neq in Hne. by rewrite Hne.
Qed.

(** X10.  Every event for a custom resource goes through the rate limiter:
    the key is not made pending at once but waits for the current delay of
    the key, and the requeue count of the key grows by one, so that the
    delay of the next event for the same resource is twice as long, until a
    successful sync calls [Forget]. *)
Theorem enqueue_backs_off chi w :
  shuttingDown (queue w) = false →
  0 < baseDelay (queue w) →
  let i := ItemString (ownerKey chi) in
  let q1 := queue (after (enqueueObject (AnyChi chi) w)) in
  pending q1 = pending (queue w)
  ∧ waiting q1 = waiting (queue w) ++ [(i, wq.When i (queue w))]
  ∧ wq.NumRequeues i q1 = S (wq.NumRequeues i (queue w))
  ∧ wq.When i q1 = 2 * wq.When i (queue w)
  ∧ wq.When i (wq.Forget i q1) = baseDelay (queue w).
Proof.
  intros Hsd Hbase i q1. subst q1. rewrite enqueueObject_chi. cbn [after queue setQueue].
  fold i. unfold wq.AddRateLimited, wq.AddAfter. simpl. rewrite Hsd.
  assert (wq.When i (queue w) ≠ 0) as Hw.
  { unfold wq.When. pose proof (Nat.pow_nonzero 2 (wq.NumRequeues i (queue w))). nia. }
  rewrite decide_False by done. simpl.
  split; [done|]. split; [done|].
  unfold wq.When, wq.NumRequeues, wq.Forget. simpl.
  rewrite lookup_insert_eq, lookup_delete_eq. simpl.
  split; [done|]. split; lia.
Qed.

(** ** The creation phase *)

Lemma creation_unknown chi l w :
  NoDup (depKey chi <$> l) →
  (∀ d, d ∈ l → unknown chi w d) →
  let r := forEach (createDependent chi) l w in
  value r = None
  ∧ events r = createdEvent chi <$> l
  ∧ (∀ d, d ∈ l → depStore (after r) !! depKey chi d = Some d.2)
  ∧ (∀ key, key ∉ depKey chi <$> l → depStore (after r) !! key = depStore w !! key).
Proof.
  revert w. induction l as [|d l IH]; intros w Hnd Hall.
  { cbn zeta. simpl. repeat split; try done. by intros ? ?%elem_of_nil. }
  cbn zeta. rewrite forEach_cons.
  rewrite fmap_cons in Hnd. apply NoDup_cons in Hnd as [Hfresh Hnd].
  destruct (Hall d) as (Hle & Hc & Hce & Hs); [apply elem_of_cons; by left|].
  assert (createDependent chi d w
          = mkRun None (setDepStore (<[depKey chi d := d.2]> (depStore w)) w)
              [createdEvent chi d]) as ->.
  { rewrite createDependent_outcome. unfold createOutcome, cacheGet.
    rewrite Hle, Hc. cbn [IsNotFound NewNotFound Reason].
    unfold kubeClient_Create, storeCreate. fold (depKey chi d).
    by rewrite Hce, Hs. }
  cbn [value after events].
  set (w' := setDepStore _ w).
  destruct (IH w' Hnd) as (Hv & Hev & Hin & Hout).
  { intros d' Hd'. destruct (Hall d') as (? & ? & ? & Hs'); [apply elem_of_cons; by right|].
    repeat split; try done. subst w'. simpl.
    rewrite lookup_insert_ne; [done|].
    intros Heq. apply Hfresh. rewrite Heq. by apply list_elem_of_fmap_2. }
  split; [done|]. split; [by rewrite Hev|]. split.
  - intros d' [->|Hd']%elem_of_cons; [|by apply Hin].
    rewrite Hout by done. subst w'. simpl. apply lookup_insert_eq.
  - intros key Hkey. rewrite fmap_cons in Hkey. apply not_elem_of_cons in Hkey as [Hne Hkey].
    rewrite Hout by done. subst w'. simpl. by rewrite lookup_insert_ne.
Qed.

(** X11.  When the generated objects have distinct names per kind and
    neither the watch cache nor the Store knows any of them, the creation
    phase succeeds with the generator's prefixes, makes exactly one create
    call per generated object, in the order of generation, stores each
    object under its own name, and leaves every other name of the Store as
    it was. *)
Theorem creation_from_scratch chi w :
  NoDup (depKey chi <$> dependents (CreateObjects chi).1) →
  (∀ d, d ∈ dependents (CreateObjects chi).1 → unknown chi w d) →
  let r := createControlledResources chi w in
  value r = ((CreateObjects chi).2, None)
  ∧ events r = createdEvent chi <$> dependents (CreateObjects chi).1
  ∧ (∀ d, d ∈ dependents (CreateObjects chi).1 →
          depStore (after r) !! depKey chi d = Some d.2)
  ∧ (∀ key, key ∉ depKey chi <$> dependents (CreateObjects chi).1 →
            depStore (after r) !! key = depStore w !! key).
Proof.
  intros Hnd Hall. cbn zeta. rewrite createControlledResources_run. cbn zeta.
  destruct (creation_unknown chi _ w Hnd Hall) as (Hv & Hev & Hin & Hout).
  cbn [value after events]. by rewrite Hv.
Qed.

Lemma creation_created_no_fault chi l w key :
  value (forEach (createDependent chi) l w) = None →
  key ∈ depKey chi <$> l →
  depCache w !! key = None →
  createErrors w !! key = None.
Proof.
  revert w. induction l as [|d l IH]; intros w Hok Hin Hc; [by apply elem_of_nil in Hin|].
  revert Hok. rewrite forEach_cons.
  pose proof (createDependent_frame chi d w) as Hfr. cbn zeta in Hfr.
  destruct Hfr as (_&_&Hcache&_&_&_&Hce&_).
  destruct (decide (key = depKey chi d)) as [->|Hne].
  - rewrite createDependent_outcome. unfold createOutcome, cacheGet. rewrite Hc.
    destruct (depLookupErrors w !! depKey chi d); [done|].
    cbn [IsNotFound NewNotFound Reason]. unfold kubeClient_Create, storeCreate.
    fold (depKey chi d). by destruct (createErrors w !! depKey chi d).
  - rewrite fmap_cons in Hin. apply elem_of_cons in Hin as [?|Hin]; [done|].
    destruct (value (createDependent chi d w)); [done|].
    cbn [value]. intros Hok. rewrite <- Hce. apply IH; [done|done|by rewrite Hcache].
Qed.

(** X12.  The creation phase does not see its own writes: when two generated
    objects of one kind have the same name and the watch cache does not show
    that name, the create call for the second one is made all the same and
    fails with "already exists", and the phase aborts with that error. *)
Theorem duplicate_name_aborts chi w pre d mid d' post :
  dependents (CreateObjects chi).1 = pre ++ d :: mid ++ d' :: post →
  depKey chi d' = depKey chi d →
  depCache w !! depKey chi d = None →
  value (forEach (createDependent chi) (pre ++ d :: mid) w) = None →
  value (createControlledResources chi w)
  = ([], Some (NewAlreadyExists (Name (Meta d'.2))))
  ∧ last (events (createControlledResources chi w))
    = Some (EvCreate d'.1 (Namespace (ChiMeta chi)) d'.2
              (Some (NewAlreadyExists (Name (Meta d'.2))))).
Proof.
  intros Hdeps Hsame Hc Hok.
  set (l := pre ++ d :: mid) in *.
  assert (depKey chi d ∈ depKey chi <$> l) as Hin.
  { apply list_elem_of_fmap_2. subst l. apply elem_of_app. right.
    apply elem_of_cons. by left. }
  pose proof (creation_done chi l w (depKey chi d) Hok) as (Hle & _ & Hdone).
  rewrite decide_True in Hdone by done. destruct Hdone as (_ & _ & Hstored).
  pose proof (creation_created_no_fault chi l w _ Hok Hin Hc) as Hce.
  pose proof (creation_frame chi l w) as Hfr. cbn zeta in Hfr.
  destruct Hfr as (_&_&Hcache&Hlerr&_&_&Hcerr&_).
  set (w1 := after (forEach (createDependent chi) l w)) in *.
  assert (createDependent chi d' w1
          = mkRun (Some (NewAlreadyExists (Name (Meta d'.2)))) w1
              [EvCreate d'.1 (Namespace (ChiMeta chi)) d'.2
                 (Some (NewAlreadyExists (Name (Meta d'.2))))]) as Hdup.
  { rewrite createDependent_outcome. unfold createOutcome, cacheGet.
    rewrite Hsame, Hlerr, Hcache, (Hle Hin), Hc.
    cbn [IsNotFound NewNotFound Reason]. unfold kubeClient_Create, storeCreate.
    fold (depKey chi d'). rewrite Hsame, Hcerr, Hce.
    destruct Hstored as [o' ->]. done. }
  rewrite createControlledResources_run. cbn zeta. cbn [value events].
  replace (dependents (CreateObjects chi).1) with (l ++ d' :: post)
    by (rewrite Hdeps; subst l; by rewrite <- app_assoc).
  rewrite forEach_app. fold w1. rewrite Hok. cbn zeta.
  rewrite forEach_cons, Hdup. cbn [value after events]. split; [done|].
  apply last_snoc.
Qed.

(** ** The status updater *)

(** X13.  The status updater writes one stored custom resource and nothing
    else: the watch cache, the dependent objects, the queue and the exporter
    are untouched and so is every other stored resource.  When the Store
    accepts the update, the resource stored under the namespace and name has
    the metadata and the spec it had and the given prefixes as its whole
    status; when the Store fails, nothing changes and the error is
    returned. *)
Theorem updateChiStatus_writes_one_status chi prefixes w :
  let r := updateChiStatus chi prefixes w in
  let key := (Namespace (ChiMeta chi), Name (ChiMeta chi)) in
  chiCache (after r) = chiCache w
  ∧ depCache (after r) = depCache w
  ∧ depStore (after r) = depStore w
  ∧ queue (after r) = queue w
  ∧ exporter (after r) = exporter w
  ∧ (∀ k, k ≠ key → chiStore (after r) !! k = chiStore w !! k)
  ∧ events r = [EvUpdate (Namespace (ChiMeta chi)) (withPrefixes chi prefixes) (value r)]
  ∧ match updateErrors w !! key with
    | None =>
        value r = None
        ∧ chiStore (after r) !! key
          = Some (mkChi (ChiMeta chi) (Spec chi) (mkChiStatus prefixes))
    | Some msg => value r = Some (Errorf msg) ∧ after r = w
    end.
Proof.
  cbn zeta. rewrite updateChiStatus_run. cbn zeta. cbn [value after events].
  unfold storeUpdate. cbn [withPrefixes ChiMeta].
  destruct (updateErrors w !! _) as [msg|]; cbn [fst snd].
  - by repeat split.
  - repeat split; try done.
    + intros k Hk. simpl. by rewrite lookup_insert_ne.
    + simpl. apply lookup_insert_eq.
Qed.

(** ** The reconcile engine *)

(** X14.  The reconcile engine only reads the watch cache and never touches
    the queue: whatever the key and the world, [syncItem] leaves the cached
    custom resources and dependent objects and the queue as they are and
    makes no queue call. *)
Theorem syncItem_reads_cache_only key w :
  let r := syncItem key w in
  chiCache (after r) = chiCache w
  ∧ depCache (after r) = depCache w
  ∧ queue (after r) = queue w
  ∧ List.filter isQueueCall (events r) = [].
Proof.
  cbn zeta. split; [|split; [|split; [apply syncItem_queue|]]].
  3:{ eapply filter_none; [apply syncItem_quiet|done]. }
  all: destruct (SplitMetaNamespaceKey key) as [[namespace name] [e|]] eqn:Hkey;
    [unfold syncItem; rewrite Hkey; by run|].
  all: destruct (value (chopLister_Get namespace name w)) as [chi|err] eqn:Hget;
    [|unfold syncItem; rewrite Hkey; unfold chopLister_Get in *; run;
      cbn [value] in Hget; rewrite Hget; by destruct (IsNotFound err)].
  all: assert (resolves key chi w) as Hres by (by exists namespace, name).
  all: destruct (ObjectPrefixes (Status chi)) as [|p ps] eqn:Hst;
    [rewrite (syncItem_creation key chi w Hres Hst);
     rewrite createControlledResources_run; cbn zeta; cbn [value after events];
     pose proof (creation_frame chi (dependents (CreateObjects chi).1) w) as Hfr;
     cbn zeta in Hfr; destruct Hfr as (Hcc&_&Hdc&_);
     destruct (value (forEach _ _ w)); cbn [fst snd value after events]; [done|];
     rewrite updateChiStatus_run; cbn [value after events];
     unfold storeUpdate; by destruct (updateErrors _ !! _)
    |assert (ObjectPrefixes (Status chi) ≠ []) as Hne by (by rewrite Hst);
     rewrite (syncItem_verification key chi w Hres Hne); cbn zeta;
     cbn [value after events]; by destruct (bool_decide _)].
Qed.

(** X15.  The verification phase settles: a second sync of the same key,
    with the watch cache unchanged, finds the identity list recorded, makes
    no update call to the exporter and changes nothing. *)
Theorem verification_settles key chi w :
  resolves key chi w →
  ObjectPrefixes (Status chi) ≠ [] →
  let first := syncItem key w in
  let second := syncItem key (after first) in
  value second = None
  ∧ after second = after first
  ∧ List.filter isExporterCall (events second)
    = [EvControlledValuesExist (Name (ChiMeta chi))
         (hostnameOf chi w <$> ObjectPrefixes (Status chi)) true].
Proof.
  intros Hres Hne. cbn zeta.
  rewrite (syncItem_verification key chi w Hres Hne). cbn zeta. cbn [after].
  set (hs := hostnameOf chi w <$> ObjectPrefixes (Status chi)).
  set (w1 := if bool_decide (exporter w !! Name (ChiMeta chi) = Some hs) then w
             else setExporter (<[Name (ChiMeta chi) := hs]> (exporter w)) w).
  assert (resolves key chi w1) as Hres1.
  { destruct Hres as (namespace & name & Hkey & Hget). exists namespace, name.
    split; [done|]. subst w1. by destruct (bool_decide _). }
  assert (hostnameOf chi w1 <$> ObjectPrefixes (Status chi) = hs) as Hhs.
  { subst w1 hs. by destruct (bool_decide _). }
  assert (controlsLines chi w1 (ObjectPrefixes (Status chi))
          = controlsLines chi w (ObjectPrefixes (Status chi))) as Hlines.
  { subst w1. by destruct (bool_decide _). }
  assert (exporter w1 !! Name (ChiMeta chi) = Some hs) as Hrec.
  { subst w1. destruct (bool_decide _) eqn:Hb.
    - by apply bool_decide_eq_true in Hb.
    - simpl. apply lookup_insert_eq. }
  rewrite (syncItem_verification key chi w1 Hres1 Hne). cbn zeta.
  rewrite Hhs, Hlines, (bool_decide_eq_true_2 _ Hrec). cbn [value after events].
  split; [done|]. split; [done|].
  destruct (logs_only _ (controlsLines_logs chi w (ObjectPrefixes (Status chi))))
    as (_ & _ & _ & Hnone).
  by rewrite List.filter_app, Hnone.
Qed.

End Coverage.

(** * The concrete installation, run *)

Section Runs.

Import Demo.

#[local] Existing Instance Demo.parser.

Lemma demo_resolves w c :
  chiLookupErrors w = ∅ → chiCache w !! ("ns1", "demo") = Some c → resolves key c w.
Proof.
  intros He Hc. exists "ns1", "demo". split; [reflexivity|].
  unfold chopLister_Get, cacheGet. cbn [value]. by rewrite He, lookup_empty, Hc.
Qed.

(** C1 on a concrete pass.  The Store refuses the create call of the
    second service: [syncItem] returns that error, and the worker logs it
    and calls [Done], nothing else.  It makes no [AddRateLimited] call, and
    afterwards the key is neither pending, nor dirty, nor waiting for a
    delay: it is never retried. *)
Theorem failed_sync_is_dropped :
  ∃ r, processNextWorkItem failing = Some r
       ∧ value (syncItem key (setQueue taken failing))
         = Some (Errorf "connection refused")
       ∧ List.filter isEnqueue (events r) = []
       ∧ List.nth_error (rev (events r)) 1 = Some (EvDone (ItemString key))
       ∧ ¬ wq.scheduled (ItemString key) (queue (after r)).
Proof.
  assert (wq.Get (queue failing) = GetItem (ItemString key) taken) as Hget
      by (vm_compute; reflexivity).
  assert (value (syncItem key (setQueue taken failing))
          = Some (Errorf "connection refused")) as Hsync by (vm_compute; reflexivity).
  destruct (failed_sync_not_requeued failing key taken _ Hget Hsync)
    as (r & Hr & _ & Hne & Hq).
  exists r. split; [done|]. split; [done|]. split; [done|]. split.
  - rewrite (processNextWorkItem_string failing key taken Hget) in Hr.
    cbn zeta in Hr. rewrite Hsync in Hr. injection Hr as <-.
    cbn [events]. rewrite app_comm_cons, rev_app_distr. reflexivity.
  - rewrite Hq.
    apply (bool_decide_eq_false_1 (wq.scheduled (ItemString key)
                                     (wq.Done (ItemString key) taken))).
    vm_compute. reflexivity.
Qed.

(** C7 on a concrete pass.  The lister fails the lookup of the custom
    resource with an error that is not NotFound.  [syncItem] returns that
    error for the worker to retry, but the retry never comes: the worker
    calls [Done] and logs the error, it makes no [AddRateLimited]
    call, and afterwards the key is neither pending, nor dirty, nor waiting
    for a delay.  This is the defect of C1, met on the lookup path. *)
Theorem lookup_error_is_not_retried :
  ∃ r, processNextWorkItem unreadable = Some r
       ∧ value (chopLister_Get "ns1" "demo" (setQueue taken unreadable))
         = inr (Errorf "index unavailable")
       ∧ IsNotFound (Errorf "index unavailable") = false
       ∧ syncItem key (setQueue taken unreadable)
         = mkRun (Some (Errorf "index unavailable")) (setQueue taken unreadable) []
       ∧ events r = [EvGet (ItemString key); EvDone (ItemString key);
                     EvHandleError (errUnableToSync key (Errorf "index unavailable"))]
       ∧ List.filter isEnqueue (events r) = []
       ∧ ¬ wq.scheduled (ItemString key) (queue (after r)).
Proof.
  assert (wq.Get (queue unreadable) = GetItem (ItemString key) taken) as Hget
      by (vm_compute; reflexivity).
  assert (syncItem key (setQueue taken unreadable)
          = mkRun (Some (Errorf "index unavailable")) (setQueue taken unreadable) [])
    as Hsync by (vm_compute; reflexivity).
  assert (value (syncItem key (setQueue taken unreadable))
          = Some (Errorf "index unavailable")) as Hval by (by rewrite Hsync).
  destruct (failed_sync_not_requeued unreadable key taken _ Hget Hval)
    as (r & Hr & _ & Hne & Hq).
  exists r. split; [done|]. split; [vm_compute; reflexivity|]. split; [reflexivity|].
  split; [done|]. split; [|split; [done|]].
  - rewrite (processNextWorkItem_string unreadable key taken Hget) in Hr.
    cbn zeta in Hr. rewrite Hsync in Hr. cbn [value after events] in Hr.
    injection Hr as <-. reflexivity.
  - rewrite Hq.
    apply (bool_decide_eq_false_1 (wq.scheduled (ItemString key)
                                     (wq.Done (ItemString key) taken))).
    vm_compute. reflexivity.
Qed.

(** C2, the claim as stated fails: the cache does not show the config map,
    the Store answers "already exists", and the helper returns an error. *)
Lemma create_already_exists_counterexample :
  absentFromCache KConfigMap chi (object "cm-demo-0") raced
  ∧ (∃ e, createFailsWith KConfigMap chi (object "cm-demo-0") raced e
          ∧ IsAlreadyExists e = true)
  ∧ value (createConfigMap chi (object "cm-demo-0") raced) ≠ None.
Proof.
  split; [|split].
  - exists (NewNotFound "cm-demo-0"). split; vm_compute; reflexivity.
  - exists (NewAlreadyExists "cm-demo-0"). split; vm_compute; reflexivity.
  - vm_compute. discriminate.
Qed.

Lemma create_returns_already_exists_witness :
  IsAlreadyExists (NewAlreadyExists "cm-demo-0") = true
  ∧ absentFromCache KConfigMap chi (object "cm-demo-0") raced
  ∧ createFailsWith KConfigMap chi (object "cm-demo-0") raced
      (NewAlreadyExists "cm-demo-0")
  ∧ value (createConfigMap chi (object "cm-demo-0") raced)
    = Some (NewAlreadyExists "cm-demo-0").
Proof.
  assert (IsAlreadyExists (NewAlreadyExists "cm-demo-0") = true) as H1 by reflexivity.
  assert (absentFromCache KConfigMap chi (object "cm-demo-0") raced) as H2
      by (exists (NewNotFound "cm-demo-0"); split; vm_compute; reflexivity).
  assert (createFailsWith KConfigMap chi (object "cm-demo-0") raced
            (NewAlreadyExists "cm-demo-0")) as H3 by (vm_compute; reflexivity).
  split; [exact H1|]. split; [exact H2|]. split; [exact H3|].
  exact (proj1 (create_returns_already_exists chi (object "cm-demo-0") raced
                  (NewAlreadyExists "cm-demo-0") H1) H2 H3).
Defined.

Lemma creation_phase_idempotent_witness :
  (value (createControlledResources chi fresh)).2 = None
  ∧ createControlledResources chi
      (cacheCatchUp (after (createControlledResources chi fresh)))
    = mkRun (["demo-0"; "demo-1"], None)
        (cacheCatchUp (after (createControlledResources chi fresh))) [].
Proof.
  assert ((value (createControlledResources chi fresh)).2 = None) as Hok
      by (vm_compute; reflexivity).
  split; [exact Hok|].
  exact (proj1 (proj2 (creation_phase_idempotent chi fresh Hok))).
Defined.

Lemma status_records_generated_prefixes_witness :
  resolves key chi fresh
  ∧ ObjectPrefixes (Status chi) = []
  ∧ (value (createControlledResources chi fresh)).2 = None
  ∧ updateErrors fresh !! ("ns1", "demo") = None
  ∧ chiStore (after (syncItem key fresh)) !! ("ns1", "demo")
    = Some (withPrefixes chi ["demo-0"; "demo-1"]).
Proof.
  assert (resolves key chi fresh) as Hres by (by apply demo_resolves).
  assert ((value (createControlledResources chi fresh)).2 = None) as Hok
      by (vm_compute; reflexivity).
  assert (updateErrors fresh !! ("ns1", "demo") = None) as Hacc by reflexivity.
  split; [exact Hres|]. split; [reflexivity|]. split; [exact Hok|]. split; [exact Hacc|].
  exact (proj2 (proj2 (proj2 (proj2
           (status_records_generated_prefixes key chi fresh Hres eq_refl Hok)))
           Hacc)).
Defined.

Lemma creation_aborts_at_first_error_witness :
  resolves key chi failing
  ∧ ObjectPrefixes (Status chi) = []
  ∧ value (syncItem key failing) = Some (Errorf "connection refused")
  ∧ List.filter isUpdate (events (syncItem key failing)) = []
  ∧ chiStore (after (syncItem key failing)) = chiStore failing.
Proof.
  assert (resolves key chi failing) as Hres by (by apply demo_resolves).
  split; [exact Hres|]. split; [reflexivity|].
  pose proof (proj1 (creation_aborts_at_first_error key chi failing Hres eq_refl)
                [(KConfigMap, object "cm-demo-0"); (KConfigMap, object "cm-demo-1");
                 (KService, object "svc-demo-0")]
                (KService, object "svc-demo-1")
                [(KStatefulSet, object "ss-demo-0"); (KStatefulSet, object "ss-demo-1")]
                (Errorf "connection refused") eq_refl) as Habort.
  cbn zeta in Habort.
  destruct Habort as (_ & Hv & _ & Hu & Hs);
    [vm_compute; reflexivity|vm_compute; reflexivity|].
  split; [exact Hv|]. split; [exact Hu|exact Hs].
Defined.

(** C6, the claim as stated fails: both recorded prefixes have lost their
    StatefulSet, and the verification phase logs nothing at all. *)
Lemma missing_statefulset_not_logged :
  resolves key synced lost
  ∧ ObjectPrefixes (Status synced) = ["demo-0"; "demo-1"]
  ∧ absentFromCache KStatefulSet synced (object (CreateStatefulSetName "demo-1")) lost
  ∧ List.filter isLog (events (syncItem key lost)) = [].
Proof.
  split; [by apply demo_resolves|]. split; [reflexivity|]. split.
  - exists (NewNotFound "ss-demo-1"). split; vm_compute; reflexivity.
  - vm_compute. reflexivity.
Qed.

Lemma verification_never_creates_witness :
  resolves key synced drifted
  ∧ ObjectPrefixes (Status synced) ≠ []
  ∧ value (syncItem key drifted) = None
  ∧ List.filter isCreate (events (syncItem key drifted)) = []
  ∧ depStore (after (syncItem key drifted)) = depStore drifted
  ∧ controlsLines synced drifted ["demo-1"] = [].
Proof.
  assert (resolves key synced drifted) as Hres by (by apply demo_resolves).
  assert (ObjectPrefixes (Status synced) ≠ []) as Hne by discriminate.
  destruct (verification_never_creates key synced drifted Hres Hne)
    as (Hv & Hc & Hs & _ & Hmissing).
  split; [exact Hres|]. split; [exact Hne|]. split; [exact Hv|]. split; [exact Hc|].
  split; [exact Hs|].
  apply (Hmissing "demo-1" (NewNotFound "ss-demo-1")). vm_compute. reflexivity.
Defined.

Lemma gone_resource_is_forgotten_witness :
  SplitMetaNamespaceKey key = ("ns1", "demo", None)
  ∧ wq.Get (queue gone) = GetItem (ItemString key) taken
  ∧ value (chopLister_Get "ns1" "demo" gone) = inr (NewNotFound "demo")
  ∧ ∃ r, processNextWorkItem gone = Some r
         ∧ events r = [EvGet (ItemString key); EvHandleError (errNoLongerExists key);
                       EvForget (ItemString key); EvDone (ItemString key)]
         ∧ pending (queue (after r)) = pending taken
         ∧ waiting (queue (after r)) = waiting taken.
Proof.
  assert (SplitMetaNamespaceKey key = ("ns1", "demo", None)) as Hkey by reflexivity.
  assert (wq.Get (queue gone) = GetItem (ItemString key) taken) as Hget
      by (vm_compute; reflexivity).
  assert (value (chopLister_Get "ns1" "demo" gone) = inr (NewNotFound "demo")) as Hlook
      by (vm_compute; reflexivity).
  split; [exact Hkey|]. split; [exact Hget|]. split; [exact Hlook|].
  destruct (gone_resource_is_forgotten key "ns1" "demo" gone taken
              (NewNotFound "demo") Hkey Hget Hlook) as (r & Hr & _ & Hrest).
  cbn in Hrest. destruct Hrest as (_ & Hev & _ & Hp & Hw & _).
  exists r. split; [exact Hr|]. split; [exact Hev|]. split; [exact Hp|exact Hw].
Defined.

Lemma orphan_events_enqueue_nothing_witness :
  eventObject unowned = Some (meta "ss-x" [])
  ∧ GetControllerOf (meta "ss-x" []) = None
  ∧ handleObject unowned fresh = mkRun tt fresh []
  ∧ handleObject (AnyDeletedFinalStateUnknown "ns1/ss-y" foreign) fresh
    = mkRun tt fresh [].
Proof.
  split; [reflexivity|]. split; [reflexivity|]. split.
  - exact (proj1 (orphan_events_enqueue_nothing unowned (meta "ss-x" []) fresh
                    eq_refl (or_introl eq_refl))).
  - refine (proj1 (orphan_events_enqueue_nothing
                     (AnyDeletedFinalStateUnknown "ns1/ss-y" foreign)
                     (meta "ss-y" [mkOwnerReference "Deployment" "demo" (Some true)])
                     fresh eq_refl (or_intror _))).
    exists (mkOwnerReference "Deployment" "demo" (Some true)).
    split; [reflexivity|]. vm_compute. discriminate.
Defined.

Lemma tombstone_routed_like_delete_witness :
  asMetaObject liveStatefulSet = Some (meta "ss-demo-0" [ownedByDemo])
  ∧ GetControllerOf (meta "ss-demo-0" [ownedByDemo]) = Some ownedByDemo
  ∧ OwnerKind ownedByDemo = ClickHouseInstallationCRDResourceKind
  ∧ value (chopLister_Get "ns1" "demo" fresh) = inl chi
  ∧ ssInformer_DeleteFunc tombstone fresh = ssInformer_DeleteFunc liveStatefulSet fresh
  ∧ List.filter isEnqueue (events (ssInformer_DeleteFunc tombstone fresh))
    = [EvAddRateLimited (ItemString key)]
  ∧ wq.scheduled (ItemString key) (queue (after (ssInformer_DeleteFunc tombstone fresh))).
Proof.
  assert (value (chopLister_Get "ns1" "demo" fresh) = inl chi) as Hget
      by (vm_compute; reflexivity).
  assert (OwnerKind ownedByDemo = ClickHouseInstallationCRDResourceKind) as Hkind
      by reflexivity.
  destruct (tombstone_routed_like_delete "ns1/ss-demo-0" liveStatefulSet
              (meta "ss-demo-0" [ownedByDemo]) ownedByDemo chi fresh
              eq_refl eq_refl Hkind Hget) as (Hsame & Hev & _ & Hsched).
  split; [reflexivity|]. split; [reflexivity|]. split; [reflexivity|].
  split; [exact Hget|]. split; [exact Hsame|]. split; [exact Hev|].
  apply Hsched. reflexivity.
Defined.

Lemma verification_identity_list_witness :
  resolves key synced drifted
  ∧ ObjectPrefixes (Status synced) ≠ []
  ∧ exporter (after (syncItem key drifted)) !! "demo" = Some ["demo-0.ns1"; EmptyString].
Proof.
  assert (resolves key synced drifted) as Hres by (by apply demo_resolves).
  assert (ObjectPrefixes (Status synced) ≠ []) as Hne by discriminate.
  split; [exact Hres|]. split; [exact Hne|].
  destruct (verification_identity_list key synced drifted Hres Hne)
    as (chHostnames & exist & Hlen & Hat & _ & _ & Hexp).
  refine (eq_trans Hexp _). f_equal.
  pose proof (Hat 0 "demo-0" eq_refl) as H0.
  pose proof (Hat 1 "demo-1" eq_refl) as H1.
  destruct chHostnames as [|a [|b [|c l]]]; try discriminate Hlen.
  vm_compute in H0, H1. congruence.
Defined.

Lemma malformed_key_is_dropped_witness :
  2 ≤ slashes "ns1/demo/extra"
  ∧ syncItem "ns1/demo/extra" fresh
    = mkRun None fresh
        [EvHandleError (Errorf "incorrect resource key: ns1/demo/extra")].
Proof.
  assert (2 ≤ slashes "ns1/demo/extra") as Hs by (vm_compute; lia).
  split; [exact Hs|].
  exact (proj1 (malformed_key_is_dropped "ns1/demo/extra" fresh Hs)).
Defined.

Lemma enqueued_key_resolves_witness :
  slashes (Namespace (ChiMeta chi)) = 0
  ∧ slashes (Name (ChiMeta chi)) = 0
  ∧ SplitMetaNamespaceKey (ownerKey chi) = ("ns1", "demo", None)
  ∧ resolves (ownerKey chi) chi fresh.
Proof.
  destruct (enqueued_key_resolves chi fresh eq_refl eq_refl) as (_ & Hsplit & Hres).
  split; [reflexivity|]. split; [reflexivity|]. split; [exact Hsplit|].
  apply Hres; reflexivity.
Defined.

Lemma foreign_item_is_discarded_witness :
  wq.Get (queue stray) = GetItem (ItemOther 7) strayTaken
  ∧ ∃ r, processNextWorkItem stray = Some r
         ∧ events r = [EvGet (ItemOther 7); EvForget (ItemOther 7);
                       EvHandleError (Errorf "unexpected item in the queue");
                       EvDone (ItemOther 7)].
Proof.
  assert (wq.Get (queue stray) = GetItem (ItemOther 7) strayTaken) as Hget
      by (vm_compute; reflexivity).
  split; [exact Hget|].
  destruct (foreign_item_is_discarded stray 7 strayTaken Hget) as (r & Hr & _ & Hev & _).
  exists r. split; [exact Hr|exact Hev].
Defined.

Lemma pass_releases_item_witness :
  wq.Get (queue fresh) = GetItem (ItemString key) taken
  ∧ ∃ r, processNextWorkItem fresh = Some r
         ∧ List.filter isDone (events r) = [EvDone (ItemString key)]
         ∧ (ItemString key ∉ processing (queue (after r))).
Proof.
  assert (wq.Get (queue fresh) = GetItem (ItemString key) taken) as Hget
      by (vm_compute; reflexivity).
  split; [exact Hget|].
  destruct (pass_releases_item fresh (ItemString key) taken Hget)
    as (r & Hr & _ & _ & Hd & _ & Hp & _).
  exists r. split; [exact Hr|]. split; [exact Hd|exact Hp].
Defined.

Lemma forget_follows_success_witness :
  wq.Get (queue failing) = GetItem (ItemString key) taken
  ∧ ∃ r, processNextWorkItem failing = Some r
         ∧ List.filter isForget (events r) = [].
Proof.
  assert (wq.Get (queue failing) = GetItem (ItemString key) taken) as Hget
      by (vm_compute; reflexivity).
  split; [exact Hget|].
  destruct (forget_follows_success failing key taken Hget) as (r & Hr & Hrest).
  exists r. split; [exact Hr|].
  assert (value (syncItem key (setQueue taken failing))
          = Some (Errorf "connection refused")) as Hsync by (vm_compute; reflexivity).
  rewrite Hsync in Hrest. exact (proj1 Hrest).
Defined.

Lemma runWorker_drains_witness :
  length (pending (queue fresh)) < 2
  ∧ value (runWorker 2 fresh) = WorkerBlocked
  ∧ pending (queue (after (runWorker 2 fresh))) = [].
Proof.
  assert (length (pending (queue fresh)) < 2) as Hlen by (vm_compute; lia).
  split; [exact Hlen|].
  destruct (runWorker_drains 2 fresh Hlen) as (Hv & Hp & _).
  split; [exact Hv|exact Hp].
Defined.

Lemma unresolved_owner_is_ignored_witness :
  eventObject liveStatefulSet = Some (meta "ss-demo-0" [ownedByDemo])
  ∧ GetControllerOf (meta "ss-demo-0" [ownedByDemo]) = Some ownedByDemo
  ∧ value (chopLister_Get "ns1" "demo" gone) = inr (NewNotFound "demo")
  ∧ List.filter isEnqueue (events (handleObject liveStatefulSet gone)) = [].
Proof.
  assert (OwnerKind ownedByDemo = ClickHouseInstallationCRDResourceKind) as Hkind
      by reflexivity.
  assert (value (chopLister_Get "ns1" "demo" gone) = inr (NewNotFound "demo")) as Hget
      by (vm_compute; reflexivity).
  split; [reflexivity|]. split; [reflexivity|]. split; [exact Hget|].
  rewrite (unresolved_owner_is_ignored liveStatefulSet (meta "ss-demo-0" [ownedByDemo])
             ownedByDemo (NewNotFound "demo") gone eq_refl eq_refl Hkind Hget).
  reflexivity.
Defined.

Lemma statefulset_resync_is_suppressed_witness :
  ResourceVersion (Meta (object "ss-demo-0")) = ResourceVersion (Meta (object "ss-demo-0"))
  ∧ ssInformer_UpdateFunc (object "ss-demo-0") (object "ss-demo-0") fresh
    = mkRun tt fresh [].
Proof.
  split; [reflexivity|].
  exact (proj1 (statefulset_resync_is_suppressed (object "ss-demo-0") (object "ss-demo-0")
                  fresh) eq_refl).
Defined.

Lemma enqueue_backs_off_witness :
  shuttingDown (queue fresh) = false
  ∧ 0 < baseDelay (queue fresh)
  ∧ waiting (queue (after (enqueueObject (AnyChi chi) fresh))) = [(ItemString key, 5)]
  ∧ wq.When (ItemString key) (queue (after (enqueueObject (AnyChi chi) fresh))) = 10.
Proof.
  assert (0 < baseDelay (queue fresh)) as Hb by (vm_compute; lia).
  destruct (enqueue_backs_off chi fresh eq_refl Hb) as (_ & Hw & _ & Hd & _).
  split; [reflexivity|]. split; [exact Hb|]. split; [exact Hw|exact Hd].
Defined.

Lemma creation_from_scratch_witness :
  NoDup (depKey chi <$> dependents (CreateObjects chi).1)
  ∧ (∀ d, d ∈ dependents (CreateObjects chi).1 → unknown chi fresh d)
  ∧ value (createControlledResources chi fresh) = (["demo-0"; "demo-1"], None)
  ∧ length (events (createControlledResources chi fresh)) = 6.
Proof.
  assert (NoDup (depKey chi <$> dependents (CreateObjects chi).1)) as Hnd.
  { apply (bool_decide_unpack _). vm_compute. exact I. }
  assert (∀ d, d ∈ dependents (CreateObjects chi).1 → unknown chi fresh d) as Hall.
  { apply Forall_forall. repeat constructor. }
  destruct (creation_from_scratch chi fresh Hnd Hall) as (Hv & Hev & _).
  split; [exact Hnd|]. split; [exact Hall|]. split; [exact Hv|].
  rewrite Hev. reflexivity.
Defined.

Lemma duplicate_name_aborts_witness :
  depCache fresh !! depKey chi (KConfigMap, object "cm-demo-0") = None
  ∧ value (forEach (createDependent chi) [(KConfigMap, object "cm-demo-0")] fresh) = None
  ∧ value (@createControlledResources twins chi fresh)
    = ([], Some (NewAlreadyExists "cm-demo-0")).
Proof.
  assert (value (forEach (createDependent chi) [(KConfigMap, object "cm-demo-0")] fresh)
          = None) as Hok by (vm_compute; reflexivity).
  split; [reflexivity|]. split; [exact Hok|].
  exact (proj1 (@duplicate_name_aborts twins chi fresh [] (KConfigMap, object "cm-demo-0")
                  [] (KConfigMap, object "cm-demo-0") [] eq_refl eq_refl eq_refl Hok)).
Defined.

Lemma verification_settles_witness :
  resolves key synced drifted
  ∧ ObjectPrefixes (Status synced) ≠ []
  ∧ after (syncItem key (after (syncItem key drifted))) = after (syncItem key drifted).
Proof.
  assert (resolves key synced drifted) as Hres by (by apply demo_resolves).
  assert (ObjectPrefixes (Status synced) ≠ []) as Hne by discriminate.
  split; [exact Hres|]. split; [exact Hne|].
  exact (proj1 (proj2 (verification_settles key synced drifted Hres Hne))).
Defined.

End Runs.
